(** * anki-flashcard-builder: a shallow embedding of
    [src/anki-flashcard-builder.py]

    The script walks the notes of an Anki deck and, for every note whose
    [Audio] field is blank, scrapes the Cambridge dictionary for a
    pronunciation, a definition and examples, falls back to VocalWare for
    the audio, downloads the audio, stores it in Anki's media library and
    writes the note's fields.

    Modelling choices.
    - A Python [str] is a list of Unicode code points ([pystr]).
    - Every function of the script is a computation in the monad [M]:
      it reads the history of effects performed so far, returns either a
      value or a raised exception, and emits the effects it performed.
    - The outside world (the AnkiConnect store, the two web sites, the
      file system, the random source) is a record of oracles [World];
      each oracle sees the whole history, so its answers may change from
      one call to the next.  Theorems quantify over every world.
    - The AnkiConnect replies are decoded at the protocol level
      ([{result, error}] objects); the HTML page is seen through
      BeautifulSoup's [find] / [find_all] interface. *)

From Stdlib Require Import ZArith QArith DecimalString.
From stdpp Require Import gmap strings list.

Open Scope Z_scope.
Open Scope list_scope.
Open Scope stdpp_scope.

(** ** Python strings *)

Module PyStr.

(** A [str]: its code points, in order. *)
Definition pystr : Type := list N.

(** A literal of the source (all of them are ASCII). *)
Definition py (s : string) : pystr :=
  map Ascii.N_of_ascii (String.list_ascii_of_string s).

(** [bool(s)] for a string. *)
Definition str_truthy (s : pystr) : bool :=
  match s with [] => false | _ :: _ => true end.

(** CPython's [_PyUnicode_IsWhitespace], which [str.strip()] uses. *)
Definition is_space (c : N) : bool :=
  ((9 <=? c) && (c <=? 13) || (28 <=? c) && (c <=? 32) ||
   (c =? 133) || (c =? 160) || (c =? 5760) ||
   (8192 <=? c) && (c <=? 8202) ||
   (c =? 8232) || (c =? 8233) || (c =? 8239) || (c =? 8287) ||
   (c =? 12288))%N.

Fixpoint lstrip_by (p : N -> bool) (s : pystr) : pystr :=
  match s with
  | [] => []
  | c :: s' => if p c then lstrip_by p s' else s
  end.

Definition rstrip_by (p : N -> bool) (s : pystr) : pystr :=
  reverse (lstrip_by p (reverse s)).

(** [s.strip()] *)
Definition strip (s : pystr) : pystr :=
  rstrip_by is_space (lstrip_by is_space s).

(** [s.rstrip(chars)]: drops trailing characters while they belong to
    [chars]. *)
Definition rstrip (chars : pystr) (s : pystr) : pystr :=
  rstrip_by (fun c => existsb (N.eqb c) chars) s.

(** [sep.join(parts)] *)
Fixpoint join (sep : pystr) (parts : list pystr) : pystr :=
  match parts with
  | [] => []
  | [p] => p
  | p :: ps => p ++ sep ++ join sep ps
  end.

(** [s.replace(old, new)] for a one-character [old]. *)
Definition replace_char (old : N) (new : pystr) (s : pystr) : pystr :=
  concat (map (fun c => if (c =? old)%N then new else [c]) s).

(** [str(z)] for an [int]. *)
Definition str_of_int (z : Z) : pystr :=
  py (NilZero.string_of_int (Z.to_int z)).

End PyStr.
Import PyStr.

(** ** Python values that reach [add_word_info_to_note] *)

Inductive pyscalar : Type :=
| VNone
| VBool (b : bool)
| VInt (z : Z)
| VStr (s : pystr).

Inductive pyval : Type :=
| Scalar (v : pyscalar)
| VList (l : list pyscalar).

(** [isinstance(v, int)]: [bool] is a subclass of [int]. *)
Definition isinstance_int (v : pyval) : bool :=
  match v with
  | Scalar (VInt _) | Scalar (VBool _) => true
  | _ => false
  end.

Definition isinstance_str (v : pyval) : bool :=
  match v with Scalar (VStr _) => true | _ => false end.

Definition isinstance_list (v : pyval) : bool :=
  match v with VList _ => true | _ => false end.

Definition is_None (v : pyval) : bool :=
  match v with Scalar VNone => true | _ => false end.

(** [str(v)] for a scalar. *)
Definition py_str (v : pyscalar) : pystr :=
  match v with
  | VNone => py "None"
  | VBool true => py "True"
  | VBool false => py "False"
  | VInt z => str_of_int z
  | VStr s => s
  end.

(** ** Exceptions, effects and the outside world *)

(** The exception classes the script can meet.  [HTTPError],
    [ConnectionError] and [Timeout] are the three classes of
    [requests.exceptions] that the script names; [RequestError] stands for
    the remaining subclasses of [RequestException]. *)
Inductive exn : Type :=
| HTTPError
| ConnectionError
| Timeout
| RequestError
| NameError
| TypeError
| KeyError
| OSError
| OtherError.

(** [isinstance(e, requests.exceptions.RequestException)] *)
Definition is_RequestException (e : exn) : bool :=
  match e with
  | HTTPError | ConnectionError | Timeout | RequestError => true
  | _ => false
  end.

(** The tuple [(HTTPError, ConnectionError, Timeout)] of [get_cards]. *)
Definition is_get_cards_caught (e : exn) : bool :=
  match e with
  | HTTPError | ConnectionError | Timeout => true
  | _ => false
  end.

(** A call either returns or raises. *)
Inductive res (A : Type) : Type :=
| Ret (a : A)
| Raise (e : exn).
Arguments Ret {A} a.
Arguments Raise {A} e.

(** [Retry(connect=3, backoff_factor=0.5)]: the two arguments the script
    passes to [urllib3]'s retry policy. *)
Record Retry : Type := {
  connect : nat;
  backoff_factor : Q
}.

(** What the script logs or prints; the message text is kept as the line
    that produces it together with the values it interpolates. *)
Inductive message : Type :=
| MsgAudioExists (word : pystr)
| MsgMakingCards (word : pystr)
| MsgAlreadyProcessed (word : pystr)
| MsgFetchFailed (url : pystr) (e : exn)
| MsgUnsupportedLanguage (language : pystr)
| MsgCambridgeFailed (e : exn)
| MsgUpdateError (note_id : pyval) (error : pystr)
| MsgUpdated (note_id : pyval)
| MsgNoteIdNotInt (note_id : pyval)
| MsgDefinitionNotStr (definition : pyval)
| MsgExamplesNotList (examples : pyval)
| MsgDownloadFailed (url : pystr) (e : exn)
| MsgUploadError (file_name : pystr) (error : pystr)
| MsgUploadException (file_name : pystr) (e : exn)
| MsgUploadFailed (word : pystr)
| MsgNoAudio (word : pystr).

Inductive channel : Type := LogError | LogInfo | Stdout.

(** One effect of the script on the outside world. *)
Inductive event : Type :=
| EvFindCards (query : pystr)
| EvCardsInfo (cards : option (list Z))
| EvUpdateNoteFields (note_id : pyval) (audio definition extra : pystr)
| EvStoreMediaFile (filename : pystr) (data : pystr)
| EvCambridgeGet (url : pystr)
| EvVocalwareGet (params : list (pystr * pystr))
| EvDownloadGet (retry : Retry) (url : pystr)
| EvFileWrite (file_name : pystr) (content : list Byte.byte)
| EvFileRead (file_name : pystr)
| EvUuid4
| EvEmit (c : channel) (m : message).

Definition trace : Type := list event.

(** An HTTP response: its status, its final URL and its body.  The body of
    an AnkiConnect reply is read through [json], which may raise. *)
Record Response (J : Type) : Type := {
  status_code : Z;
  url : pystr;
  text : pystr;
  content : list Byte.byte;
  json : res J
}.
Arguments status_code {J} _.
Arguments url {J} _.
Arguments text {J} _.
Arguments content {J} _.
Arguments json {J} _.

(** An AnkiConnect reply [{result, error}]; [None] is JSON [null]. *)
Record AnkiReply (R : Type) : Type := {
  result : option R;
  error : option pystr
}.
Arguments result {R} _.
Arguments error {R} _.

(** A note as [cardsInfo] returns it: [note] is [note['note']] and
    [fields] maps a field name to [note['fields'][name]['value']]. *)
Record Note : Type := {
  note : pyval;
  fields : gmap pystr pystr
}.

(** A tag of the parsed page. *)
Record Tag : Type := {
  attrs : gmap pystr pystr;
  tag_text : pystr
}.

(** The parsed page, seen through [soup.find] and [soup.find_all]. *)
Record Soup : Type := {
  find : pystr -> pystr * pystr -> option Tag;
  find_all : pystr -> pystr * pystr -> list Tag
}.

(** The outside world.  Every oracle receives the history of the run. *)
Record World : Type := {
  post_findCards : trace -> pystr -> res (Response (AnkiReply (list Z)));
  post_cardsInfo :
    trace -> option (list Z) -> res (Response (AnkiReply (list Note)));
  post_updateNoteFields :
    trace -> pyval -> pystr -> pystr -> pystr -> res (Response (AnkiReply unit));
  post_storeMediaFile :
    trace -> pystr -> pystr -> res (Response (AnkiReply pystr));
  get_cambridge : trace -> pystr -> res (Response unit);
  get_vocalware : trace -> list (pystr * pystr) -> res (Response unit);
  session_get : trace -> Retry -> pystr -> res (Response unit);
  file_write : trace -> pystr -> list Byte.byte -> res unit;
  file_read : trace -> pystr -> res (list Byte.byte);
  uuid4 : trace -> pystr
}.

(** Pure library functions the script calls, and its configuration. *)
Record Config : Type := {
  html_parser : pystr -> Soup;          (* BeautifulSoup(text, 'html.parser') *)
  md5_hexdigest : pystr -> pystr;       (* hashlib.md5(s.encode()).hexdigest() *)
  b64encode : list Byte.byte -> pystr;       (* base64.b64encode(d).decode('utf-8') *)
  API_ID : pystr;
  ACCOUNT_ID : pystr;
  SECRET_PHRASE : pystr;
  LANGUAGE : pystr                      (* args.language *)
}.

(** ** The monad of the script *)

(** A computation reads the history, answers with a value or an exception,
    and emits its own effects (to be appended to the history). *)
Definition M (A : Type) : Type := trace -> res A * trace.

Definition ret {A} (a : A) : M A := fun _ => (Ret a, []).

Definition raise {A} (e : exn) : M A := fun _ => (Raise e, []).

Definition bind {A B} (m : M A) (f : A -> M B) : M B :=
  fun h =>
    match m h with
    | (Ret a, out) =>
        let '(r, out') := f a (h ++ out) in (r, out ++ out')
    | (Raise e, out) => (Raise e, out)
    end.

Notation "'let*' x := m 'in' k" := (bind m (fun x => k))
  (at level 10, x pattern, m at level 100, k at level 200).
Notation "m ;; k" := (bind m (fun _ => k))
  (at level 100, k at level 200, right associativity).

(** [try: body except <classes matched by catches> as e: handler e] *)
Definition try_except {A} (body : M A) (catches : exn -> bool)
    (handler : exn -> M A) : M A :=
  fun h =>
    match body h with
    | (Ret a, out) => (Ret a, out)
    | (Raise e, out) =>
        if catches e
        then let '(r, out') := handler e (h ++ out) in (r, out ++ out')
        else (Raise e, out)
    end.

(** One effect: the event is emitted and the world answers. *)
Definition perform {A} (ev : event) (answer : trace -> res A) : M A :=
  fun h => (answer h, [ev]).

Definition emit (c : channel) (m : message) : M unit :=
  fun _ => (Ret tt, [EvEmit c m]).

Definition lift_res {A} (r : res A) : M A := fun _ => (r, []).

(** [response.raise_for_status()]: [HTTPError] for 4xx and 5xx. *)
Definition raise_for_status {J} (response : Response J) : M unit :=
  if (400 <=? status_code response) && (status_code response <? 600)
  then raise HTTPError else ret tt.

(** [for x in xs: acc = body x acc] *)
Fixpoint for_each {A S} (xs : list A) (body : A -> S -> M S) (acc : S) : M S :=
  match xs with
  | [] => ret acc
  | x :: xs' => let* acc' := body x acc in for_each xs' body acc'
  end.

(** ** The script *)

(** One entry of [language_dict]. *)
Record Locale : Type := {
  loc_uri : pystr;
  loc_tag : pystr;
  loc_class : pystr
}.

(** The dictionary [get_cambridge_word_info] returns. *)
Record WordInfo : Type := {
  audio_url : option pystr;
  definition : pystr;
  examples : list pystr
}.

(** [bool(v)] for a value that is [None] or a string. *)
Definition truthy (v : option pystr) : bool :=
  match v with
  | Some s => str_truthy s
  | None => false
  end.

(** The string inside a value already known to be a [str]. *)
Definition as_str (v : pyval) : pystr :=
  match v with Scalar (VStr s) => s | _ => [] end.

(** The elements of a value already known to be a [list]. *)
Definition as_list (v : pyval) : list pyscalar :=
  match v with VList l => l | _ => [] end.

(** [language_dict], lines 125-128. *)
Definition language_dict : gmap pystr Locale :=
  {[ py "en" := {| loc_uri := py "english"; loc_tag := py "div";
                   loc_class := py "def ddef_d db" |};
     py "cn" := {| loc_uri := py "english-chinese-simplified";
                   loc_tag := py "div";
                   loc_class := py "tc-bb tb lpb-25 break-cj" |} ]}.

Section Script.

Variable W : World.
Variable C : Config.

(** Reading the name [url] inside [get_cards]: it is bound neither in
    the function nor at module level, so the read raises. *)
Definition load_name_url : M pystr := raise NameError.

(** [get_cards], lines 35-51.  The [try] block ends either in the early
    [return None] of the handler ([inl]) or in [response_data] ([inr]). *)
Definition get_cards (deck_name : pystr) : M (option (list Z)) :=
  let query := py "deck:" ++ deck_name in
  let* r :=
    try_except
      (let* response :=
         perform (EvFindCards query) (fun h => post_findCards W h query) in
       raise_for_status response ;;
       let* response_data := lift_res (json response) in
       ret (inr response_data))
      is_get_cards_caught
      (fun e =>
         let* url := load_name_url in
         emit LogError (MsgFetchFailed url e) ;;
         ret (inl None)) in
  match r with
  | inl returned => ret returned
  | inr response_data => ret (result response_data)
  end.

(** [get_notes], lines 54-63. *)
Definition get_notes (cards : option (list Z)) : M (option (list Note)) :=
  let* response :=
    perform (EvCardsInfo cards) (fun h => post_cardsInfo W h cards) in
  let* response := lift_res (json response) in
  ret (result response).

(** [add_word_info_to_note], lines 65-115.  Each early [return] of the
    source is the end of a branch here. *)
Definition add_word_info_to_note (note_id : pyval)
    (audio_file_name : pystr) (definition examples : pyval) : M unit :=
  if negb (isinstance_int note_id) then
    emit Stdout (MsgNoteIdNotInt note_id)
  else if negb (is_None definition) && negb (isinstance_str definition) then
    emit Stdout (MsgDefinitionNotStr definition)
  else
    let definition :=
      if is_None definition then [] else as_str definition in
    if negb (is_None examples) && negb (isinstance_list examples) then
      emit Stdout (MsgExamplesNotList examples)
    else
      let examples_text :=
        if is_None examples then []
        else join (py "<br>") (map py_str (as_list examples)) in
      let audio := py "[sound:" ++ audio_file_name ++ py "]" in
      let* response :=
        perform (EvUpdateNoteFields note_id audio definition examples_text)
          (fun h => post_updateNoteFields W h note_id audio definition
                      examples_text) in
      let* response := lift_res (json response) in
      match error response with
      | Some err => emit LogError (MsgUpdateError note_id err)
      | None => emit LogInfo (MsgUpdated note_id)
      end.

(** [get_cambridge_word_info], lines 121-173. *)
Definition get_cambridge_word_info (word language : pystr)
    : M (option WordInfo) :=
  let formatted_word := replace_char 32 (py "-") word in
  match language_dict !! language with
  | None =>
      emit LogError (MsgUnsupportedLanguage language) ;;
      ret None
  | Some loc =>
      let url :=
        py "https://dictionary.cambridge.org/dictionary/" ++ loc_uri loc
          ++ py "/" ++ formatted_word in
      let* r :=
        try_except
          (let* response :=
             perform (EvCambridgeGet url) (fun h => get_cambridge W h url) in
           raise_for_status response ;;
           ret (inr response))
          is_RequestException
          (fun e =>
             emit LogError (MsgCambridgeFailed e) ;;
             ret (inl None)) in
      match r with
      | inl returned => ret returned
      | inr response =>
          let soup := html_parser C (text response) in
          let audio_tag :=
            find soup (py "source") (py "type", py "audio/mpeg") in
          let audio_url :=
            match audio_tag with
            | Some t =>
                match attrs t !! py "src" with
                | Some src =>
                    Some (py "https://dictionary.cambridge.org" ++ src)
                | None => None
                end
            | None => None
            end in
          let definition_tag :=
            find soup (loc_tag loc) (py "class", loc_class loc) in
          let definition :=
            match definition_tag with
            | Some t => rstrip (py ":") (strip (tag_text t))
            | None => py "No definition found."
            end in
          let example_tags :=
            find_all soup (py "div") (py "class", py "examp dexamp") in
          let examples :=
            match example_tags with
            | [] => []
            | _ => map (fun t => strip (tag_text t)) (take 3 example_tags)
            end in
          ret (Some {| audio_url := audio_url;
                       definition := definition;
                       examples := examples |})
      end
  end.

(** [get_vocalware_tts_url], lines 176-204. *)
Definition get_vocalware_tts_url (word : pystr) : M (option pystr) :=
  let params :=
    [ (py "EID", str_of_int 3); (py "LID", str_of_int 1);
      (py "VID", str_of_int 5); (py "TXT", word);
      (py "ACC", ACCOUNT_ID C); (py "API", API_ID C) ] in
  let hash_string :=
    str_of_int 3 ++ str_of_int 1 ++ str_of_int 5 ++ word
      ++ ACCOUNT_ID C ++ API_ID C ++ SECRET_PHRASE C in
  let params := params ++ [ (py "CS", md5_hexdigest C hash_string) ] in
  let* response :=
    perform (EvVocalwareGet params) (fun h => get_vocalware W h params) in
  if status_code response =? 200 then ret (Some (url response))
  else ret None.

(** [download_audio], lines 207-226. *)
Definition download_audio (url file_name : pystr) : M bool :=
  let retry := {| connect := 3; backoff_factor := 1 # 2 |} in
  try_except
    (let* response :=
       perform (EvDownloadGet retry url)
         (fun h => session_get W h retry url) in
     raise_for_status response ;;
     perform (EvFileWrite file_name (content response))
       (fun h => file_write W h file_name (content response)) ;;
     ret true)
    is_RequestException
    (fun e =>
       emit Stdout (MsgDownloadFailed url e) ;;
       ret false).

(** [upload_audio_to_anki], lines 229-249; [except Exception] catches
    every class of [exn]. *)
Definition upload_audio_to_anki (file_name : pystr) : M (option pystr) :=
  try_except
    (let* data :=
       perform (EvFileRead file_name) (fun h => file_read W h file_name) in
     let b64_data := b64encode C data in
     let* response :=
       perform (EvStoreMediaFile file_name b64_data)
         (fun h => post_storeMediaFile W h file_name b64_data) in
     let* response := lift_res (json response) in
     match error response with
     | Some err =>
         emit Stdout (MsgUploadError file_name err) ;;
         ret None
     | None => ret (result response)
     end)
    (fun _ => true)
    (fun e =>
       emit Stdout (MsgUploadException file_name e) ;;
       ret None).

(** [cambridge_word_info[key]]: subscripting [None] raises. *)
Definition subscript {A} (info : option WordInfo) (key : WordInfo -> A)
    : M A :=
  match info with
  | Some d => ret (key d)
  | None => raise TypeError
  end.

(** The body of the loop of [main], lines 258-302; [processed_words] is
    threaded through the iterations, and [continue] is the return of the
    set as it is. *)
Definition process_note (n : Note) (processed_words : gset pystr)
    : M (gset pystr) :=
  let note_id := note n in
  let* word :=
    match fields n !! py "Word" with
    | Some v => ret v
    | None => raise KeyError
    end in
  let audio_field := default [] (fields n !! py "Audio") in
  if str_truthy (strip audio_field) then
    emit LogInfo (MsgAudioExists word) ;;
    ret processed_words
  else
    emit LogInfo (MsgMakingCards word) ;;
    if decide (word ∈ processed_words) then
      emit LogInfo (MsgAlreadyProcessed word) ;;
      ret processed_words
    else
      let* cambridge_word_info :=
        get_cambridge_word_info word (LANGUAGE C) in
      let* audio_url := subscript cambridge_word_info audio_url in
      let* word_definition := subscript cambridge_word_info definition in
      let* word_examples := subscript cambridge_word_info examples in
      let file_name := py "cambridge" in
      let* (audio_url, file_name) :=
        if negb (truthy audio_url) then
          let* audio_url := get_vocalware_tts_url word in
          ret (audio_url, py "vocalware")
        else ret (audio_url, file_name) in
      if truthy audio_url then
        let* uuid := perform EvUuid4 (fun h => Ret (uuid4 W h)) in
        let unique_filename := file_name ++ py "-" ++ uuid ++ py ".mp3" in
        let* downloaded :=
          download_audio (default [] audio_url) unique_filename in
        if downloaded then
          let* audio_file_name := upload_audio_to_anki unique_filename in
          if truthy audio_file_name then
            add_word_info_to_note note_id (default [] audio_file_name)
              (Scalar (VStr word_definition))
              (VList (map VStr word_examples)) ;;
            ret (processed_words ∪ {[ word ]})
          else
            emit Stdout (MsgUploadFailed word) ;;
            ret processed_words
        else ret processed_words
      else
        emit Stdout (MsgNoAudio word) ;;
        ret processed_words.

(** [main], lines 251-302.  Iterating over [None] raises. *)
Definition main (deck_name : pystr) : M unit :=
  let* cards := get_cards deck_name in
  let* notes := get_notes cards in
  let processed_words : gset pystr := ∅ in
  match notes with
  | None => raise TypeError
  | Some notes =>
      for_each notes process_note processed_words ;;
      ret tt
  end.

End Script.

(** ** Trace observations *)

(** A request sent over the network. *)
Definition is_network (ev : event) : bool :=
  match ev with
  | EvFindCards _ | EvCardsInfo _ | EvUpdateNoteFields _ _ _ _
  | EvStoreMediaFile _ _ | EvCambridgeGet _ | EvVocalwareGet _
  | EvDownloadGet _ _ => true
  | _ => false
  end.

(** A write to a note of the store ([updateNoteFields]). *)
Definition is_update (ev : event) : bool :=
  match ev with
  | EvUpdateNoteFields _ _ _ _ => true
  | _ => false
  end.

(** A line of log or of standard output. *)
Definition is_output (ev : event) : bool :=
  match ev with
  | EvEmit _ _ => true
  | _ => false
  end.

(** The network requests of a trace, and its writes to notes. *)
Definition network_calls (t : trace) : trace := List.filter is_network t.

Definition updates (t : trace) : trace := List.filter is_update t.

(** The [Audio] field holds some character that is not white space. *)
Definition has_audio (n : Note) : Prop :=
  exists v, fields n !! py "Audio" = Some v /\
            exists c, c ∈ v /\ is_space c = false.

(** The [Audio] field is absent, empty or white space only. *)
Definition audio_blank (n : Note) : Prop :=
  forall v, fields n !! py "Audio" = Some v ->
            forall c, c ∈ v -> is_space c = true.

(** Every effect a computation emits satisfies [P], whatever the history
    and the answer. *)
Definition emits {A} (P : event -> Prop) (m : M A) : Prop :=
  forall h, Forall P (m h).2.

(** An effect that is not a write to a note. *)
Definition not_update (ev : event) : Prop := is_update ev = false.

(** ** Blocks of the loop body, for stating what each stage does *)

(** The line of log that opens the work on a blank note. *)
Abbreviation making_cards w := (EvEmit LogInfo (MsgMakingCards w)).

Section Blocks.

Variable W : World.
Variable C : Config.

(** The body of the loop from [if audio_url:] to its end, once an audio
    URL and a source tag are chosen. *)
Definition store_audio (n : Note) (word : pystr) (info : WordInfo)
    (audio_url : option pystr) (file_name : pystr)
    (processed_words : gset pystr) : M (gset pystr) :=
  if truthy audio_url then
    let* uuid := perform EvUuid4 (fun h => Ret (uuid4 W h)) in
    let unique_filename := file_name ++ py "-" ++ uuid ++ py ".mp3" in
    let* downloaded :=
      download_audio W (default [] audio_url) unique_filename in
    if downloaded then
      let* audio_file_name := upload_audio_to_anki W C unique_filename in
      if truthy audio_file_name then
        add_word_info_to_note W (note n) (default [] audio_file_name)
          (Scalar (VStr (definition info)))
          (VList (map VStr (examples info))) ;;
        ret (processed_words ∪ {[ word ]})
      else
        emit Stdout (MsgUploadFailed word) ;;
        ret processed_words
    else ret processed_words
  else
    emit Stdout (MsgNoAudio word) ;;
    ret processed_words.

(** The body of the loop after the dictionary returned [info]: the
    choice of the audio source, then [store_audio]. *)
Definition after_lookup (n : Note) (word : pystr) (info : WordInfo)
    (processed_words : gset pystr) : M (gset pystr) :=
  let* (audio_url, file_name) :=
    if negb (truthy (audio_url info)) then
      let* audio_url := get_vocalware_tts_url W C word in
      ret (audio_url, py "vocalware")
    else ret (audio_url info, py "cambridge") in
  store_audio n word info audio_url file_name processed_words.

End Blocks.

(** The URL and the source tag the loop body goes on with, after the
    dictionary returned [info] at history [h]: the dictionary's own URL, or
    what VocalWare answers at [h], emitting [out]. *)
Definition source_yields (W : World) (C : Config) (word : pystr) (h : trace)
    (info : WordInfo) (url : option pystr) (tag : pystr) (out : trace)
    : Prop :=
  if truthy (audio_url info)
  then url = audio_url info /\ tag = py "cambridge" /\ out = []
  else get_vocalware_tts_url W C word h = (Ret url, out) /\
       tag = py "vocalware".

(** The name of the temporary file of a source tag and a fresh
    identifier. *)
Definition temp_name (tag uuid : pystr) : pystr :=
  tag ++ py "-" ++ uuid ++ py ".mp3".

(** The address [get_cambridge_word_info] requests for a word in a
    locale. *)
Definition cambridge_url (loc : Locale) (word : pystr) : pystr :=
  py "https://dictionary.cambridge.org/dictionary/" ++ loc_uri loc
    ++ py "/" ++ replace_char 32 (py "-") word.

(** The ways the upload of [file_name] at history [h] can fail: the file
    cannot be read, the request raises, the reply cannot be decoded, or
    the store reports an error. *)
Inductive publish_failure (W : World) (C : Config) (file_name : pystr)
    (h : trace) : Prop :=
| unreadable (e : exn) :
    file_read W h file_name = Raise e ->
    publish_failure W C file_name h
| transport_error (data : list Byte.byte) (e : exn) :
    file_read W h file_name = Ret data ->
    post_storeMediaFile W (h ++ [EvFileRead file_name]) file_name
      (b64encode C data) = Raise e ->
    publish_failure W C file_name h
| undecodable (data : list Byte.byte) (response : Response (AnkiReply pystr))
    (e : exn) :
    file_read W h file_name = Ret data ->
    post_storeMediaFile W (h ++ [EvFileRead file_name]) file_name
      (b64encode C data) = Ret response ->
    json response = Raise e ->
    publish_failure W C file_name h
| store_error (data : list Byte.byte)
    (response : Response (AnkiReply pystr)) (reply : AnkiReply pystr)
    (err : pystr) :
    file_read W h file_name = Ret data ->
    post_storeMediaFile W (h ++ [EvFileRead file_name]) file_name
      (b64encode C data) = Ret response ->
    json response = Ret reply ->
    error reply = Some err ->
    publish_failure W C file_name h.

(** The loop body on note [n] at history [h] gets as far as the upload:
    the note is blank and bears the fresh word [w], the dictionary returned
    [info], a source tagged [tag] gave a non-empty URL, and the download
    into the temporary file [f] succeeded, all of which emitted [pre]. *)
Definition reaches_publish (W : World) (C : Config) (n : Note)
    (pw : gset pystr) (h : trace) (w : pystr) (info : WordInfo)
    (tag f : pystr) (pre : trace) : Prop :=
  exists (o_l : trace) (u : option pystr) (o_f o_d : trace),
    let h1 := h ++ [making_cards w] in
    fields n !! py "Word" = Some w /\
    audio_blank n /\
    (w ∉ pw) /\
    get_cambridge_word_info W C w (LANGUAGE C) h1 = (Ret (Some info), o_l) /\
    source_yields W C w (h1 ++ o_l) info u tag o_f /\
    truthy u = true /\
    f = temp_name tag (uuid4 W ((h1 ++ o_l) ++ o_f)) /\
    download_audio W (default [] u) f (((h1 ++ o_l) ++ o_f) ++ [EvUuid4])
      = (Ret true, o_d) /\
    pre = making_cards w :: o_l ++ o_f ++ EvUuid4 :: o_d.

(** The store answered an [updateNoteFields] request of the trace [out],
    emitted from history [h], with a non-null error. *)
Definition update_rejected (W : World) (h out : trace) : Prop :=
  exists pre note_id a d x post response reply err,
    out = pre ++ EvUpdateNoteFields note_id a d x :: post /\
    post_updateNoteFields W (h ++ pre) note_id a d x = Ret response /\
    json response = Ret reply /\
    error reply = Some err.

(** ** The claims that the code does not meet, as they are worded *)

(** C1 as worded: on the VocalWare path the note is written with an empty
    [Definition] and an empty [Extra information]. *)
Definition fallback_writes_empty_fields (W : World) (C : Config) (n : Note)
    (pw : gset pystr) (h : trace) : Prop :=
  forall w info f pre name o_u,
    reaches_publish W C n pw h w info (py "vocalware") f pre ->
    truthy (audio_url info) = false ->
    upload_audio_to_anki W C f (h ++ pre) = (Ret (Some name), o_u) ->
    name <> [] ->
    forall note_id a d x,
      EvUpdateNoteFields note_id a d x ∈ (process_note W C n pw h).2 ->
      d = [] /\ x = [].

(** C4 as worded: a word whose update the store rejected is not added to
    the set of processed words. *)
Definition rejected_update_not_processed (W : World) (C : Config) (n : Note)
    (pw : gset pystr) (h : trace) : Prop :=
  forall w pw' out,
    fields n !! py "Word" = Some w ->
    (w ∉ pw) ->
    process_note W C n pw h = (Ret pw', out) ->
    update_rejected W h out ->
    w ∉ pw'.

(** The stripped text with exactly one trailing colon removed, when it
    ends in a colon. *)
Definition strip_one_colon (text : pystr) : pystr :=
  let s := strip text in
  match last s with
  | Some c => if (c =? 58)%N then removelast s else s
  | None => s
  end.

(** C8 as worded: the definition of a fetched page is the text of the
    locale's definition block, stripped, less exactly one trailing
    colon. *)
Definition definition_drops_one_colon (W : World) (C : Config)
    (word language : pystr) (h : trace) : Prop :=
  forall loc response t info out,
    language_dict !! language = Some loc ->
    get_cambridge W h (cambridge_url loc word) = Ret response ->
    find (html_parser C (text response)) (loc_tag loc)
      (py "class", loc_class loc) = Some t ->
    get_cambridge_word_info W C word language h = (Ret (Some info), out) ->
    definition info = strip_one_colon (tag_text t).


(** ** A small world, for running the script on concrete decks *)

Module Sample.

Definition http {J} (status : Z) (body : res J) : Response J :=
  {| status_code := status;
     url := py "https://www.vocalware.com/tts/gen.php?EID=3";
     text := [];
     content := [];
     json := body |}.

Definition reply {R} (r : option R) (e : option pystr) : res (AnkiReply R) :=
  Ret {| result := r; error := e |}.

(** A page with an optional audio source, an optional definition block
    and some example blocks. *)
Definition page (audio definition : option pystr) (examples : list pystr)
    : Soup :=
  {| find := fun name _ =>
       if decide (name = py "source")
       then (fun src => {| attrs := {[ py "src" := src ]}; tag_text := [] |})
              <$> audio
       else (fun d => {| attrs := ∅; tag_text := d |}) <$> definition;
     find_all := fun _ _ =>
       (fun e => {| attrs := ∅; tag_text := e |}) <$> examples |}.

Definition config (soup : Soup) : Config :=
  {| html_parser := fun _ => soup;
     md5_hexdigest := fun _ => py "d41d8cd98f00b204e9800998ecf8427e";
     b64encode := fun _ => py "SUQz";
     API_ID := py "1234";
     ACCOUNT_ID := py "5678";
     SECRET_PHRASE := py "secret";
     LANGUAGE := py "en" |}.

(** A world that answers every request the same way: the deck holds
    [notes]; the dictionary request gives [dictionary]; VocalWare answers
    with status [tts]; the download with status [dl]; the media store
    with [media]; the update with the error [upd]. *)
Definition world (notes : list Note) (dictionary : res (Response unit))
    (tts dl : Z) (media : pystr -> res (AnkiReply pystr))
    (upd : option pystr)
    (listing : res (Response (AnkiReply (list Z)))) : World :=
  {| post_findCards := fun _ _ => listing;
     post_cardsInfo := fun _ _ => Ret (http 200 (reply (Some notes) None));
     post_updateNoteFields := fun _ _ _ _ _ =>
       Ret (http 200 (reply None upd));
     post_storeMediaFile := fun _ f _ => Ret (http 200 (media f));
     get_cambridge := fun _ _ => dictionary;
     get_vocalware := fun _ _ => Ret (http tts (Ret tt));
     session_get := fun _ _ _ => Ret (http dl (Ret tt));
     file_write := fun _ _ _ => Ret tt;
     file_read := fun _ _ => Ret [];
     uuid4 := fun _ => py "6f1c" |}.

Definition listed : res (Response (AnkiReply (list Z))) :=
  Ret (http 200 (reply (Some [1; 2]) None)).

Definition card (id : Z) (word audio : pystr) : Note :=
  {| note := Scalar (VInt id);
     fields := {[ py "Word" := word; py "Audio" := audio ]} |}.

(** The media store keeps the name it is given. *)
Definition stored (f : pystr) : res (AnkiReply pystr) := reply (Some f) None.

End Sample.

(** Concrete decks and pages. *)
Module Cases.
Import Sample.

Definition ubiquitous : pystr := py "ubiquitous".

(** The entry of the dictionary for the word, with its audio. *)
Definition page_full : Soup :=
  page (Some (py "/media/english/uk_pron/u/ubi/ubiqu/ubiquitous.mp3"))
    (Some (py "existing or being everywhere at the same time:"))
    [py "Mobile phones are ubiquitous these days."].

(** A page without audio and without definition block. *)
Definition page_silent : Soup :=
  page None None [py "Mobile phones are ubiquitous these days."].

(** A page whose definition block ends in two colons. *)
Definition page_colons : Soup := page None (Some (py " a:: ")) [].

Definition fetched : res (Response unit) := Ret (http 200 (Ret tt)).

(** Every service answers; the deck holds [notes]. *)
Definition world_ok (notes : list Note) : World :=
  world notes fetched 200 200 stored None listed.

(** The store rejects the update. *)
Definition world_rejecting (notes : list Note) : World :=
  world notes fetched 200 200 stored (Some (py "cannot edit note")) listed.



(** The media store reports an error. *)
Definition world_media_error (notes : list Note) : World :=
  world notes fetched 200 200
    (fun _ => reply None (Some (py "disk full"))) None listed.

(** The dictionary cannot be reached. *)
Definition world_offline (notes : list Note) : World :=
  world notes (Raise ConnectionError) 200 200 stored None listed.

(** The store cannot be reached. *)
Definition world_no_store : World :=
  world [] fetched 200 200 stored None (Raise ConnectionError).

Definition blank_card : Note := card 1 ubiquitous [].
Definition other_card : Note := card 2 (py "serene") (py "[sound:s.mp3]").
Definition second_card : Note := card 3 ubiquitous (py " ").
Definition done_card : Note := card 4 ubiquitous (py "[sound:u.mp3]").

(** What the runs on these cards emit and return. *)

Definition en : Locale :=
  {| loc_uri := py "english"; loc_tag := py "div";
     loc_class := py "def ddef_d db" |}.

Definition making : event := making_cards ubiquitous.

Definition asked : event := EvCambridgeGet (cambridge_url en ubiquitous).

Definition audio_address : pystr :=
  py "https://dictionary.cambridge.org/media/english/uk_pron/u/ubi/ubiqu/ubiquitous.mp3".

Definition tts_address : pystr :=
  py "https://www.vocalware.com/tts/gen.php?EID=3".

Definition info_full : WordInfo :=
  {| audio_url := Some audio_address;
     definition := py "existing or being everywhere at the same time";
     examples := [py "Mobile phones are ubiquitous these days."] |}.

Definition info_silent : WordInfo :=
  {| audio_url := None;
     definition := py "No definition found.";
     examples := [py "Mobile phones are ubiquitous these days."] |}.

Definition tts_request : event :=
  EvVocalwareGet
    [ (py "EID", py "3"); (py "LID", py "1"); (py "VID", py "5");
      (py "TXT", ubiquitous); (py "ACC", py "5678"); (py "API", py "1234");
      (py "CS", py "d41d8cd98f00b204e9800998ecf8427e") ].

Definition retry : Retry := {| connect := 3; backoff_factor := 1 # 2 |}.

Definition cambridge_file : pystr := temp_name (py "cambridge") (py "6f1c").

Definition vocalware_file : pystr := temp_name (py "vocalware") (py "6f1c").

Definition downloaded (url f : pystr) : trace :=
  [EvDownloadGet retry url; EvFileWrite f []].

Definition uploaded (f : pystr) : trace :=
  [EvFileRead f; EvStoreMediaFile f (py "SUQz")].

(** The events of the loop body on [blank_card] up to the upload, through
    the dictionary's audio and through VocalWare. *)
Definition pre_cambridge : trace :=
  making :: [asked] ++ [] ++ EvUuid4 :: downloaded audio_address cambridge_file.

Definition pre_vocalware : trace :=
  making :: [asked] ++ [tts_request]
    ++ EvUuid4 :: downloaded tts_address vocalware_file.

Definition written (f d x : pystr) : event :=
  EvUpdateNoteFields (Scalar (VInt 1)) (py "[sound:" ++ f ++ py "]") d x.

End Cases.
(** ** The start of the script, and more observations *)

(** The values [argparse] accepts for [--language], and its default
    (lines 16-18). *)
Definition language_choices : list pystr := [py "en"; py "cn"].

Definition default_language : pystr := py "en".

(** The credentials read when the module is loaded (lines 27-32):
    [os.getenv] gives [None] for a variable that is not set, an unset or
    empty variable is falsy, and [EnvironmentError] is Python's
    [OSError].  The result is [(API_ID, ACCOUNT_ID, SECRET_PHRASE)]. *)
Definition load_credentials (environ : gmap pystr pystr)
    : res (pystr * pystr * pystr) :=
  let api_id := environ !! py "VW_API_ID" in
  let account_id := environ !! py "VW_ACCOUNT_ID" in
  let secret_phrase := environ !! py "VW_SECRET_PHRASE" in
  if negb (truthy api_id) || negb (truthy account_id)
     || negb (truthy secret_phrase)
  then Raise OSError
  else Ret (default [] api_id, default [] account_id,
            default [] secret_phrase).

(** The text holds a character that is not white space. *)
Definition not_blank (s : pystr) : Prop :=
  exists c, c ∈ s /\ is_space c = false.

(** An effect that is not the reading of a file other than [f]. *)
Definition reads_only (f : pystr) (ev : event) : Prop :=
  match ev with
  | EvFileRead f' => f' = f
  | _ => True
  end.

(** An effect that is not the reading of a file. *)
Definition not_file_read (ev : event) : Prop :=
  match ev with
  | EvFileRead _ => False
  | _ => True
  end.

(** An effect that is not a network request. *)
Definition not_network (ev : event) : Prop := is_network ev = false.

(** The note of the list that an [updateNoteFields] request of a run
    writes: it is one of [notes], its [Audio] was blank, and the request
    sets [Audio] to the playback directive of a non-empty file name. *)
Definition writes_blank_note (notes : list Note) (ev : event) : Prop :=
  match ev with
  | EvUpdateNoteFields note_id audio _ _ =>
      exists n name,
        n ∈ notes /\ audio_blank n /\ note_id = note n /\
        name <> [] /\ audio = py "[sound:" ++ name ++ py "]"
  | _ => True
  end.

(** The text neither begins nor ends with white space. *)
Definition trimmed (s : pystr) : Prop :=
  (forall c, head s = Some c -> is_space c = false) /\
  (forall c, last s = Some c -> is_space c = false).


(** An effect that is not a request to VocalWare. *)
Definition not_vocalware (ev : event) : Prop :=
  match ev with
  | EvVocalwareGet _ => False
  | _ => True
  end.

(** More concrete worlds and notes. *)
Module MoreCases.
Import Sample Cases.

(** [W] with other answers from VocalWare, from the file system on a
    write, and from the store on the detail request. *)
Definition rewire (W : World) (tts : res (Response unit))
    (write : res unit)
    (detail : res (Response (AnkiReply (list Note)))) : World :=
  {| post_findCards := post_findCards W;
     post_cardsInfo := fun _ _ => detail;
     post_updateNoteFields := post_updateNoteFields W;
     post_storeMediaFile := post_storeMediaFile W;
     get_cambridge := get_cambridge W;
     get_vocalware := fun _ _ => tts;
     session_get := session_get W;
     file_write := fun _ _ _ => write;
     file_read := file_read W;
     uuid4 := uuid4 W |}.

Definition detail_of (notes : list Note)
    : res (Response (AnkiReply (list Note))) :=
  Ret (http 200 (reply (Some notes) None)).


(** The disk is full. *)
Definition world_disk_full (notes : list Note) : World :=
  rewire (world_ok notes) (Ret (http 200 (Ret tt))) (Raise OSError)
    (detail_of notes).

(** The store answers the detail request with an error. *)
Definition world_no_detail : World :=
  rewire (world_ok []) (Ret (http 200 (Ret tt))) (Ret tt)
    (Ret (http 200 (reply None (Some (py "deck was not found"))))).

(** The dictionary answers 404. *)
Definition world_not_found (notes : list Note) : World :=
  world notes (Ret (http 404 (Ret tt))) 200 200 stored None listed.

(** A page with four example blocks. *)
Definition page_examples : Soup :=
  page None None [py " one "; py "two"; py "three "; py "four"].

(** A note without [Audio] field, and a note without [Word] field. *)
Definition card_without_audio : Note :=
  {| note := Scalar (VInt 5); fields := {[ py "Word" := ubiquitous ]} |}.

Definition card_without_word : Note :=
  {| note := Scalar (VInt 6); fields := {[ py "Audio" := [] ]} |}.

(** An environment with the three credentials, and one whose secret is
    empty. *)
Definition environ_full : gmap pystr pystr :=
  {[ py "VW_API_ID" := py "1234"; py "VW_ACCOUNT_ID" := py "5678";
     py "VW_SECRET_PHRASE" := py "secret" ]}.

(** What the loop body emits on [blank_card] when every service answers
    and the page has audio. *)
Definition blank_card_run : trace :=
  pre_cambridge ++ uploaded cambridge_file
    ++ [written cambridge_file (definition info_full)
          (py "Mobile phones are ubiquitous these days.");
        EvEmit LogInfo (MsgUpdated (Scalar (VInt 1)))].

Definition two_cards_run : trace :=
  blank_card_run ++ [EvEmit LogInfo (MsgAudioExists (py "serene"))].

End MoreCases.
#[global] Arguments py : simpl never.
#[global] Arguments strip : simpl never.
#[global] Arguments rstrip : simpl never.
#[global] Arguments join : simpl never.
#[global] Arguments replace_char : simpl never.
#[global] Arguments str_of_int : simpl never.

(** ** Strings: what [strip] and [rstrip] keep *)

Section Strip.

Variable p : N -> bool.

Lemma lstrip_by_split (s : pystr) :
  exists dropped, s = dropped ++ lstrip_by p s /\
                  Forall (fun c => p c = true) dropped.
Proof.
  induction s as [|c s IH]; simpl.
  - exists []. split; [reflexivity | constructor].
  - destruct (p c) eqn:Hc.
    + destruct IH as (d & Hs & Hd). exists (c :: d). split.
      * simpl. congruence.
      * constructor; assumption.
    + exists []. split; [reflexivity | constructor].
Qed.

Lemma lstrip_by_head (s : pystr) (c : N) (t : pystr) :
  lstrip_by p s = c :: t -> p c = false.
Proof.
  induction s as [|a s IH]; simpl; [discriminate|].
  destruct (p a) eqn:Ha; [exact IH|].
  intros [= -> _]. exact Ha.
Qed.

Lemma lstrip_by_nil (s : pystr) :
  lstrip_by p s = [] <-> Forall (fun c => p c = true) s.
Proof.
  split.
  - intros H. destruct (lstrip_by_split s) as (d & Hs & Hd).
    rewrite H, app_nil_r in Hs. subst d. exact Hd.
  - induction 1 as [|c s Hc _ IH]; simpl; [reflexivity|].
    rewrite Hc. exact IH.
Qed.

Lemma rstrip_by_split (s : pystr) :
  exists dropped, s = rstrip_by p s ++ dropped /\
                  Forall (fun c => p c = true) dropped.
Proof.
  unfold rstrip_by.
  destruct (lstrip_by_split (reverse s)) as (d & Hs & Hd).
  exists (reverse d). split.
  - rewrite <- reverse_app, <- Hs. symmetry. apply reverse_involutive.
  - apply Forall_reverse. exact Hd.
Qed.

Lemma rstrip_by_last (s : pystr) (c : N) :
  last (rstrip_by p s) = Some c -> p c = false.
Proof.
  unfold rstrip_by. rewrite last_reverse.
  destruct (lstrip_by p (reverse s)) as [|a t] eqn:E; simpl; [discriminate|].
  intros [= ->]. eapply lstrip_by_head, E.
Qed.

Lemma rstrip_by_nil (s : pystr) :
  rstrip_by p s = [] <-> Forall (fun c => p c = true) s.
Proof.
  split.
  - intros H. destruct (rstrip_by_split s) as (d & Hs & Hd).
    rewrite H in Hs. simpl in Hs. subst d. exact Hd.
  - intros H. unfold rstrip_by. apply Forall_reverse in H.
    apply lstrip_by_nil in H. rewrite H. reflexivity.
Qed.

End Strip.

Lemma strip_nil (s : pystr) :
  strip s = [] <-> Forall (fun c => is_space c = true) s.
Proof.
  unfold strip. rewrite rstrip_by_nil. split.
  - intros H. destruct (lstrip_by_split is_space s) as (d & Hs & Hd).
    rewrite Hs. apply Forall_app. split; assumption.
  - intros H. destruct (lstrip_by_split is_space s) as (d & Hs & Hd).
    rewrite Hs in H. apply Forall_app in H. apply H.
Qed.

Lemma str_truthy_false (s : pystr) : str_truthy s = false <-> s = [].
Proof. destruct s; simpl; split; congruence. Qed.

(** The test [audio_field.strip()] of [main] is false exactly on a blank
    [Audio] field. *)
Lemma audio_test_blank (n : Note) :
  str_truthy (strip (default [] (fields n !! py "Audio"))) = false
  <-> audio_blank n.
Proof.
  rewrite str_truthy_false, strip_nil, Forall_forall. unfold audio_blank.
  destruct (fields n !! py "Audio") as [v|]; simpl.
  - split.
    + intros H v' [= <-]. exact H.
    + intros H. apply H. reflexivity.
  - split.
    + intros _ v' [=].
    + intros _ c Hc. inversion Hc.
Qed.

Lemma audio_test_has_audio (n : Note) :
  has_audio n ->
  str_truthy (strip (default [] (fields n !! py "Audio"))) = true.
Proof.
  intros (v & Hv & c & Hc & Hsp).
  destruct (str_truthy _) eqn:E; [reflexivity|].
  apply audio_test_blank in E. rewrite (E v Hv c Hc) in Hsp. discriminate.
Qed.

(** ** Running computations *)

Lemma bind_run {A B} (m : M A) (f : A -> M B) (h : trace) :
  bind m f h =
  match m h with
  | (Ret a, out) => let '(r, out') := f a (h ++ out) in (r, out ++ out')
  | (Raise e, out) => (Raise e, out)
  end.
Proof. reflexivity. Qed.

Lemma try_except_run {A} (body : M A) catches handler (h : trace) :
  try_except body catches handler h =
  match body h with
  | (Ret a, out) => (Ret a, out)
  | (Raise e, out) =>
      if catches e
      then let '(r, out') := handler e (h ++ out) in (r, out ++ out')
      else (Raise e, out)
  end.
Proof. reflexivity. Qed.

Section Emits.

Context {A B : Type} (P : event -> Prop).

Lemma emits_ret (a : A) : emits P (ret a).
Proof. intros h. constructor. Qed.

Lemma emits_raise (e : exn) : emits P (@raise A e).
Proof. intros h. constructor. Qed.

Lemma emits_lift_res (r : res A) : emits P (lift_res r).
Proof. intros h. constructor. Qed.

Lemma emits_perform ev (answer : trace -> res A) :
  P ev -> emits P (perform ev answer).
Proof. intros H h. repeat constructor. exact H. Qed.

Lemma emits_emit c msg : P (EvEmit c msg) -> emits P (emit c msg).
Proof. intros H h. repeat constructor. exact H. Qed.

Lemma emits_bind (m : M A) (f : A -> M B) :
  emits P m -> (forall a, emits P (f a)) -> emits P (bind m f).
Proof.
  intros Hm Hf h. rewrite bind_run. specialize (Hm h).
  destruct (m h) as [[a|e] out]; simpl in *; [|exact Hm].
  specialize (Hf a (h ++ out)).
  destruct (f a (h ++ out)) as [r out']; simpl in *.
  apply Forall_app. split; assumption.
Qed.

Lemma emits_try_except (body : M A) catches handler :
  emits P body -> (forall e, emits P (handler e)) ->
  emits P (try_except body catches handler).
Proof.
  intros Hb Hh h. rewrite try_except_run. specialize (Hb h).
  destruct (body h) as [[a|e] out]; simpl in *; [exact Hb|].
  destruct (catches e); [|exact Hb].
  specialize (Hh e (h ++ out)).
  destruct (handler e (h ++ out)) as [r out']; simpl in *.
  apply Forall_app. split; assumption.
Qed.

End Emits.

Lemma emits_raise_for_status {J} P (response : Response J) :
  emits P (raise_for_status response).
Proof.
  unfold raise_for_status.
  destruct (_ && _); [apply emits_raise | apply emits_ret].
Qed.

(** Solves [emits P m] for a computation built from the combinators, when
    [P] holds of each event that occurs in it by computation. *)
Ltac emits_tac :=
  repeat first
    [ apply emits_ret | apply emits_raise | apply emits_lift_res
    | apply emits_raise_for_status
    | apply emits_perform; [reflexivity || (simpl; congruence)]
    | apply emits_emit; [reflexivity || (simpl; congruence)]
    | apply emits_bind; [|intros ?]
    | apply emits_try_except; [|intros ?]
    | match goal with
      | |- emits _ (match ?x with _ => _ end) => destruct x
      | |- emits _ (if ?x then _ else _) => destruct x
      end ].

Section ScriptFacts.

Variable W : World.
Variable C : Config.

Lemma get_cambridge_word_info_no_update word language :
  emits not_update (get_cambridge_word_info W C word language).
Proof. unfold get_cambridge_word_info, not_update. emits_tac. Qed.

Lemma get_vocalware_tts_url_no_update word :
  emits not_update (get_vocalware_tts_url W C word).
Proof. unfold get_vocalware_tts_url, not_update. emits_tac. Qed.

Lemma download_audio_no_update url file_name :
  emits not_update (download_audio W url file_name).
Proof. unfold download_audio, not_update. emits_tac. Qed.

Lemma upload_audio_to_anki_no_update file_name :
  emits not_update (upload_audio_to_anki W C file_name).
Proof. unfold upload_audio_to_anki, not_update. emits_tac. Qed.

End ScriptFacts.

(** ** Cards that are skipped *)

Section Skips.

Variable W : World.
Variable C : Config.

(** A note with audio costs one line of log, or the [KeyError] of a
    missing [Word] field. *)
Lemma process_note_has_audio (n : Note) (pw : gset pystr) (h : trace) :
  has_audio n ->
  process_note W C n pw h =
  match fields n !! py "Word" with
  | Some w => (Ret pw, [EvEmit LogInfo (MsgAudioExists w)])
  | None => (Raise KeyError, [])
  end.
Proof.
  intros Ha. apply audio_test_has_audio in Ha.
  unfold process_note. rewrite bind_run.
  destruct (fields n !! py "Word") as [w|]; simpl; [|reflexivity].
  rewrite Ha. reflexivity.
Qed.

(** A blank note whose word is already processed costs two lines of
    log. *)
Lemma process_note_duplicate (n : Note) (pw : gset pystr) (h : trace) w :
  fields n !! py "Word" = Some w -> audio_blank n -> w ∈ pw ->
  process_note W C n pw h =
  (Ret pw, [EvEmit LogInfo (MsgMakingCards w);
            EvEmit LogInfo (MsgAlreadyProcessed w)]).
Proof.
  intros Hw Hb Hin. apply audio_test_blank in Hb.
  unfold process_note. rewrite bind_run, Hw. simpl. rewrite Hb.
  rewrite bind_run. simpl.
  destruct (decide (w ∈ pw)) as [_|Hn]; [reflexivity | contradiction].
Qed.

Lemma for_each_has_audio (notes : list Note) (pw : gset pystr) (h : trace) :
  Forall has_audio notes ->
  exists r out,
    for_each notes (process_note W C) pw h = (r, out) /\
    Forall (fun ev => is_output ev = true) out /\
    (Forall (fun n => is_Some (fields n !! py "Word")) notes -> r = Ret pw).
Proof.
  intros Hall. revert h. induction Hall as [|n notes Hn _ IH]; intros h.
  - exists (Ret pw), []. repeat split. constructor.
  - simpl. rewrite bind_run, (process_note_has_audio n pw h Hn).
    destruct (fields n !! py "Word") as [w|] eqn:Hw.
    + destruct (IH (h ++ [EvEmit LogInfo (MsgAudioExists w)]))
        as (r & out & -> & Hout & Hr).
      eexists _, _. split; [reflexivity|]. split.
      * constructor; [reflexivity | exact Hout].
      * intros Hws. apply Hr. inversion Hws; assumption.
    + eexists _, _. split; [reflexivity|]. split.
      * constructor.
      * intros Hws. inversion Hws as [|? ? [x Hx] _]. congruence.
Qed.

Lemma get_cards_returns deck_name h cards out :
  get_cards W deck_name h = (Ret cards, out) ->
  out = [EvFindCards (py "deck:" ++ deck_name)].
Proof.
  unfold get_cards. rewrite bind_run, try_except_run, bind_run. simpl.
  destruct (post_findCards W h _) as [response|e]; simpl.
  - unfold raise_for_status. rewrite !bind_run.
    destruct (_ && _); simpl.
    + intros [=].
    + destruct (json response) as [d|e]; simpl.
      * intros [= _ <-]. reflexivity.
      * destruct (is_get_cards_caught e); simpl; intros [=].
  - destruct (is_get_cards_caught e); simpl; intros [=].
Qed.

Lemma get_notes_returns cards h notes out :
  get_notes W cards h = (Ret notes, out) -> out = [EvCardsInfo cards].
Proof.
  unfold get_notes. rewrite !bind_run. simpl.
  destruct (post_cardsInfo W h cards) as [response|e]; simpl.
  - destruct (json response) as [d|e]; simpl.
    + intros [= _ <-]. reflexivity.
    + intros [=].
  - intros [=].
Qed.

Lemma network_calls_output (t : trace) :
  Forall (fun ev => is_output ev = true) t -> network_calls t = [].
Proof.
  induction 1 as [|ev t Hev _ IH]; [reflexivity|].
  destruct ev; try discriminate. exact IH.
Qed.

Lemma updates_output (t : trace) :
  Forall (fun ev => is_output ev = true) t -> updates t = [].
Proof.
  induction 1 as [|ev t Hev _ IH]; [reflexivity|].
  destruct ev; try discriminate. exact IH.
Qed.

(** C5. If every note the detail fetch returns has non-blank [Audio],
    the run sends the listing request and the detail request and no other
    network request, and writes no note; it ends normally when every
    note has its [Word] field. *)
Theorem idempotent_on_complete_deck
    (deck_name : pystr) (h : trace)
    (cards : option (list Z)) (o1 : trace)
    (notes : list Note) (o2 : trace) :
  get_cards W deck_name h = (Ret cards, o1) ->
  get_notes W cards (h ++ o1) = (Ret (Some notes), o2) ->
  Forall has_audio notes ->
  exists r out,
    main W C deck_name h = (r, out) /\
    network_calls out =
      [EvFindCards (py "deck:" ++ deck_name); EvCardsInfo cards] /\
    updates out = [] /\
    (Forall (fun n => is_Some (fields n !! py "Word")) notes -> r = Ret tt).
Proof.
  intros Hc Hn Hall.
  pose proof (get_cards_returns _ _ _ _ Hc) as ->.
  pose proof (get_notes_returns _ _ _ _ Hn) as ->.
  destruct (for_each_has_audio notes ∅
              ((h ++ [EvFindCards (py "deck:" ++ deck_name)])
                 ++ [EvCardsInfo cards]) Hall)
    as (r & out & Hrun & Hout & Hr).
  unfold main. rewrite bind_run, Hc, bind_run, Hn, bind_run, Hrun.
  pose proof (network_calls_output out Hout) as Hnet.
  pose proof (updates_output out Hout) as Hupd.
  unfold network_calls, updates in *.
  destruct r as [pw|e].
  - eexists _, _. split; [reflexivity|]. simpl.
    rewrite app_nil_r, Hnet, Hupd. repeat split.
  - eexists _, _. split; [reflexivity|]. simpl.
    rewrite Hnet, Hupd. repeat split.
    intros Hw. specialize (Hr Hw). discriminate.
Qed.

End Skips.

(** ** The stages of the pipeline *)

Lemma bind_ret {A B} (a : A) (f : A -> M B) (h : trace) :
  bind (ret a) f h = f a h.
Proof.
  rewrite bind_run. simpl. rewrite app_nil_r.
  destruct (f a h); reflexivity.
Qed.

Lemma updates_app (t1 t2 : trace) : updates (t1 ++ t2) = updates t1 ++ updates t2.
Proof. apply List.filter_app. Qed.

Lemma updates_not_update (t : trace) : Forall not_update t -> updates t = [].
Proof.
  induction 1 as [|ev t Hev _ IH]; [reflexivity|].
  unfold updates in *. simpl. rewrite Hev. exact IH.
Qed.

Lemma emits_run {A} P (m : M A) h r out :
  emits P m -> m h = (r, out) -> Forall P out.
Proof. intros Hm Hrun. specialize (Hm h). rewrite Hrun in Hm. exact Hm. Qed.

Lemma join_map_VStr (sep : pystr) (l : list pystr) :
  join sep (map py_str (map VStr l)) = join sep l.
Proof. rewrite map_map. simpl. rewrite map_id. reflexivity. Qed.

Section Stages.

Variable W : World.
Variable C : Config.

(** [upload_audio_to_anki] always returns: its [except Exception]
    clause turns every exception into [None]. *)
Lemma upload_audio_to_anki_returns (file_name : pystr) (h : trace) :
  exists v out, upload_audio_to_anki W C file_name h = (Ret v, out).
Proof.
  unfold upload_audio_to_anki. rewrite try_except_run, bind_run. simpl.
  destruct (file_read W h file_name) as [data|e]; simpl; [|eauto].
  rewrite bind_run. simpl.
  destruct (post_storeMediaFile W _ _ _) as [response|e]; simpl; [|eauto].
  rewrite bind_run. simpl.
  destruct (json response) as [reply|e]; simpl; [|eauto].
  destruct (error reply) as [err|]; simpl; eauto.
Qed.

(** What [add_word_info_to_note] does with the arguments [main] gives
    it, when the note identifier is an integer. *)
Lemma add_word_info_to_note_run (note_id : pyval) (name d : pystr)
    (x : list pystr) (h : trace) :
  isinstance_int note_id = true ->
  let audio := py "[sound:" ++ name ++ py "]" in
  let extra := join (py "<br>") x in
  add_word_info_to_note W note_id name (Scalar (VStr d)) (VList (map VStr x)) h =
  match post_updateNoteFields W h note_id audio d extra with
  | Ret response =>
      match json response with
      | Ret reply =>
          (Ret tt,
           [EvUpdateNoteFields note_id audio d extra;
            match error reply with
            | Some err => EvEmit LogError (MsgUpdateError note_id err)
            | None => EvEmit LogInfo (MsgUpdated note_id)
            end])
      | Raise e => (Raise e, [EvUpdateNoteFields note_id audio d extra])
      end
  | Raise e => (Raise e, [EvUpdateNoteFields note_id audio d extra])
  end.
Proof.
  intros Hid. unfold add_word_info_to_note. rewrite Hid. simpl.
  rewrite join_map_VStr, bind_run. simpl.
  destruct (post_updateNoteFields W h _ _ _ _) as [response|e]; [|reflexivity].
  rewrite bind_run. simpl.
  destruct (json response) as [reply|e]; [|reflexivity].
  simpl. destruct (error reply); reflexivity.
Qed.

End Stages.

(** ** The loop body, stage by stage *)

Section LoopBody.

Variable W : World.
Variable C : Config.

(** A blank note with a fresh word: the dictionary is asked, and the
    rest of the body runs on its entry. *)
Lemma process_note_fresh (n : Note) (pw : gset pystr) (h : trace)
    (w : pystr) :
  fields n !! py "Word" = Some w -> audio_blank n -> w ∉ pw ->
  process_note W C n pw h =
  match get_cambridge_word_info W C w (LANGUAGE C) (h ++ [making_cards w]) with
  | (Ret (Some info), o_l) =>
      let '(r, o) := after_lookup W C n w info pw ((h ++ [making_cards w]) ++ o_l) in
      (r, making_cards w :: o_l ++ o)
  | (Ret None, o_l) => (Raise TypeError, making_cards w :: o_l)
  | (Raise e, o_l) => (Raise e, making_cards w :: o_l)
  end.
Proof.
  intros Hw Hb Hin. apply audio_test_blank in Hb.
  unfold process_note. rewrite Hw, bind_ret, Hb, bind_run.
  cbn [emit].
  destruct (decide (w ∈ pw)) as [?|_]; [contradiction|].
  rewrite bind_run.
  destruct (get_cambridge_word_info W C w (LANGUAGE C) _)
    as [[[info|]|e] o_l]; cbn [subscript].
  - rewrite !bind_ret. unfold after_lookup, store_audio.
    match goal with
    | |- context [bind ?m ?f ?hh] => destruct (bind m f hh) as [r o]
    end.
    reflexivity.
  - rewrite bind_run. cbn [raise]. rewrite app_nil_r. reflexivity.
  - reflexivity.
Qed.

Lemma after_lookup_run (n : Note) (w : pystr) (info : WordInfo)
    (pw : gset pystr) (h : trace) (u : option pystr) (tag : pystr)
    (o_f : trace) :
  source_yields W C w h info u tag o_f ->
  after_lookup W C n w info pw h =
  let '(r, o) := store_audio W C n w info u tag pw (h ++ o_f) in
  (r, o_f ++ o).
Proof.
  unfold source_yields, after_lookup.
  destruct (truthy (audio_url info)); cbn [negb].
  - intros (-> & -> & ->). rewrite bind_ret, app_nil_r.
    destruct (store_audio _ _ _ _ _ _ _ _ _); reflexivity.
  - intros (Hf & ->). rewrite bind_run, bind_run, Hf.
    cbn [ret]. rewrite app_nil_r.
    destruct (store_audio _ _ _ _ _ _ _ _ _) as [r o]. reflexivity.
Qed.

(** When VocalWare raises, so does the loop body. *)
Lemma after_lookup_fallback_raises (n : Note) (w : pystr)
    (info : WordInfo) (pw : gset pystr) (h : trace) (e : exn)
    (o_f : trace) :
  truthy (audio_url info) = false ->
  get_vocalware_tts_url W C w h = (Raise e, o_f) ->
  after_lookup W C n w info pw h = (Raise e, o_f).
Proof.
  intros Hu Hf. unfold after_lookup. rewrite Hu. cbn [negb].
  rewrite bind_run, bind_run, Hf. reflexivity.
Qed.

Lemma store_audio_no_url (n : Note) (w : pystr) (info : WordInfo)
    (pw : gset pystr) (h : trace) (u : option pystr) (tag : pystr) :
  truthy u = false ->
  store_audio W C n w info u tag pw h =
  (Ret pw, [EvEmit Stdout (MsgNoAudio w)]).
Proof. intros Hu. unfold store_audio. rewrite Hu. reflexivity. Qed.

Lemma store_audio_run (n : Note) (w : pystr) (info : WordInfo)
    (pw : gset pystr) (h : trace) (u : option pystr) (tag : pystr) :
  truthy u = true ->
  store_audio W C n w info u tag pw h =
  let f := temp_name tag (uuid4 W h) in
  let h1 := h ++ [EvUuid4] in
  match download_audio W (default [] u) f h1 with
  | (Ret true, o_d) =>
      match upload_audio_to_anki W C f (h1 ++ o_d) with
      | (Ret v, o_u) =>
          if truthy v then
            match add_word_info_to_note W (note n) (default [] v)
                    (Scalar (VStr (definition info)))
                    (VList (map VStr (examples info)))
                    ((h1 ++ o_d) ++ o_u) with
            | (Ret _, o_w) =>
                (Ret (pw ∪ {[ w ]}), EvUuid4 :: o_d ++ o_u ++ o_w)
            | (Raise e, o_w) => (Raise e, EvUuid4 :: o_d ++ o_u ++ o_w)
            end
          else
            (Ret pw,
             EvUuid4 :: o_d ++ o_u ++ [EvEmit Stdout (MsgUploadFailed w)])
      | (Raise e, o_u) => (Raise e, EvUuid4 :: o_d ++ o_u)
      end
  | (Ret false, o_d) => (Ret pw, EvUuid4 :: o_d)
  | (Raise e, o_d) => (Raise e, EvUuid4 :: o_d)
  end.
Proof.
  intros Hu. unfold store_audio, temp_name. rewrite Hu, bind_run.
  cbn [perform]. cbv zeta. rewrite bind_run.
  destruct (download_audio W _ _ _) as [[[|]|e] o_d]; try reflexivity;
    [|cbn [ret]; rewrite app_nil_r; reflexivity].
  rewrite bind_run.
  destruct (upload_audio_to_anki W C _ _) as [[v|e] o_u]; try reflexivity.
  destruct (truthy v).
  - rewrite bind_run.
    destruct (add_word_info_to_note W _ _ _ _ _) as [[[]|e] o_w];
      [|reflexivity].
    cbn [ret]. rewrite app_nil_r. reflexivity.
  - rewrite bind_run. reflexivity.
Qed.

Lemma updates_stages (w : pystr) (o_l o_f o_d : trace) :
  Forall not_update o_l -> Forall not_update o_f -> Forall not_update o_d ->
  updates (making_cards w :: o_l ++ o_f ++ EvUuid4 :: o_d) = [].
Proof.
  intros Hl Hf Hd. apply updates_not_update.
  constructor; [reflexivity|].
  apply Forall_app; split; [exact Hl|].
  apply Forall_app; split; [exact Hf|].
  constructor; [reflexivity | exact Hd].
Qed.

(** What a normal return of the loop body says: either nothing was
    written and the set is unchanged, or the word was fresh, the upload
    returned a non-empty name, [add_word_info_to_note] was called and
    returned, and the word joined the set. *)
Lemma process_note_returns_inv (n : Note) (pw pw' : gset pystr)
    (h out : trace) :
  process_note W C n pw h = (Ret pw', out) ->
  (pw' = pw /\ updates out = []) \/
  (exists w pre f name info o_u o_w,
      fields n !! py "Word" = Some w /\ audio_blank n /\ (w ∉ pw) /\
      pw' = pw ∪ {[ w ]} /\
      out = pre ++ o_u ++ o_w /\ updates pre = [] /\ updates o_u = [] /\
      upload_audio_to_anki W C f (h ++ pre) = (Ret (Some name), o_u) /\
      name <> [] /\
      add_word_info_to_note W (note n) name
        (Scalar (VStr (definition info)))
        (VList (map VStr (examples info)))
        ((h ++ pre) ++ o_u) = (Ret tt, o_w)).
Proof.
  destruct (fields n !! py "Word") as [w|] eqn:Hw.
  2:{ unfold process_note. rewrite Hw, bind_run. discriminate. }
  destruct (str_truthy (strip (default [] (fields n !! py "Audio"))))
    eqn:Hb.
  { unfold process_note. rewrite Hw, bind_ret, Hb.
    intros [= <- <-]. left. split; reflexivity. }
  apply audio_test_blank in Hb.
  destruct (decide (w ∈ pw)) as [Hin|Hin].
  { rewrite (process_note_duplicate W C n pw h w Hw Hb Hin).
    intros [= <- <-]. left. split; reflexivity. }
  rewrite (process_note_fresh n pw h w Hw Hb Hin).
  destruct (get_cambridge_word_info W C w (LANGUAGE C) _)
    as [[[info|]|e] o_l] eqn:Hl; try discriminate.
  pose proof (emits_run _ _ _ _ _
                (get_cambridge_word_info_no_update W C w (LANGUAGE C)) Hl)
    as Hnl.
  set (h1 := (h ++ [making_cards w]) ++ o_l) in *.
  assert (exists u tag o_f,
             source_yields W C w h1 info u tag o_f /\
             Forall not_update o_f \/
             exists e o_f, after_lookup W C n w info pw h1 = (Raise e, o_f))
    as Hsrc.
  { unfold source_yields.
    destruct (truthy (audio_url info)) eqn:Hu.
    - exists (audio_url info), (py "cambridge"), []. left.
      repeat split. constructor.
    - destruct (get_vocalware_tts_url W C w h1) as [[u|e] o_f] eqn:Hf.
      + exists u, (py "vocalware"), o_f. left. repeat split.
        exact (emits_run _ _ _ _ _
                 (get_vocalware_tts_url_no_update W C w) Hf).
      + exists None, [], []. right. exists e, o_f.
        apply after_lookup_fallback_raises; assumption. }
  destruct Hsrc as (u & tag & o_f & [[Hsrc Hnf] | (e & o & Hraise)]).
  2:{ rewrite Hraise. discriminate. }
  rewrite (after_lookup_run n w info pw h1 u tag o_f Hsrc).
  destruct (truthy u) eqn:Hu.
  2:{ rewrite store_audio_no_url by exact Hu.
      intros [= <- <-]. left. split; [reflexivity|].
      apply updates_not_update. constructor; [reflexivity|].
      apply Forall_app; split; [exact Hnl|].
      apply Forall_app; split; [exact Hnf|].
      constructor; [reflexivity | constructor]. }
  rewrite store_audio_run by exact Hu. cbv zeta.
  set (f := temp_name tag (uuid4 W (h1 ++ o_f))).
  destruct (download_audio W _ f _) as [[[|]|e] o_d] eqn:Hd;
    try discriminate.
  2:{ intros [= <- <-]. left. split; [reflexivity|].
      apply updates_stages; try assumption.
      exact (emits_run _ _ _ _ _ (download_audio_no_update W _ _) Hd). }
  pose proof (emits_run _ _ _ _ _ (download_audio_no_update W _ _) Hd)
    as Hnd.
  destruct (upload_audio_to_anki W C f _) as [[v|e] o_u] eqn:Hup;
    try discriminate.
  pose proof (emits_run _ _ _ _ _ (upload_audio_to_anki_no_update W C _) Hup)
    as Hnu.
  destruct (truthy v) eqn:Hv.
  2:{ intros [= <- <-]. left. split; [reflexivity|].
      apply updates_not_update. constructor; [reflexivity|].
      repeat (apply Forall_app; split; [assumption|]).
      constructor; [reflexivity|].
      repeat (apply Forall_app; split; [assumption|]).
      repeat constructor. }
  destruct v as [name|]; [|discriminate]. cbn [default] in *.
  destruct (add_word_info_to_note W _ _ _ _ _) as [[[]|e] o_w] eqn:Hadd;
    try discriminate.
  intros [= <- <-]. right.
  exists w, (making_cards w :: o_l ++ o_f ++ EvUuid4 :: o_d), f, name, info,
    o_u, o_w.
  split; [reflexivity|]. split; [exact Hb|]. split; [exact Hin|].
  split; [reflexivity|].
  split; [rewrite <- !app_comm_cons, <- !app_assoc; reflexivity|].
  split; [apply updates_stages; assumption|].
  split; [apply updates_not_update; assumption|].
  assert (h ++ making_cards w :: o_l ++ o_f ++ EvUuid4 :: o_d
          = ((h1 ++ o_f) ++ [EvUuid4]) ++ o_d) as Hh.
  { subst h1. rewrite <- !app_assoc. reflexivity. }
  rewrite Hh.
  split; [exact Hup|].
  split; [destruct name; [discriminate | congruence]|].
  exact Hadd.
Qed.

End LoopBody.

(** ** The loop *)

Section Loop.

Variable W : World.
Variable C : Config.

Lemma for_each_app {A S} (xs ys : list A) (body : A -> S -> M S)
    (acc : S) (h : trace) :
  for_each (xs ++ ys) body acc h =
  match for_each xs body acc h with
  | (Ret acc', out) =>
      let '(r, out') := for_each ys body acc' (h ++ out) in (r, out ++ out')
  | (Raise e, out) => (Raise e, out)
  end.
Proof.
  revert acc h. induction xs as [|x xs IH]; intros acc h.
  - simpl. rewrite app_nil_r. destruct (for_each ys body acc h); reflexivity.
  - simpl. rewrite !bind_run.
    destruct (body x acc h) as [[acc1|e] o1]; [|reflexivity].
    rewrite IH.
    destruct (for_each xs body acc1 (h ++ o1)) as [[acc2|e] o2];
      [|reflexivity].
    rewrite <- app_assoc.
    destruct (for_each ys body acc2 _) as [r o3].
    rewrite app_assoc. reflexivity.
Qed.

(** The set of processed words only grows along the loop. *)
Lemma process_note_monotone (n : Note) (pw pw' : gset pystr)
    (h out : trace) :
  process_note W C n pw h = (Ret pw', out) -> pw ⊆ pw'.
Proof.
  intros Hrun. apply process_note_returns_inv in Hrun.
  destruct Hrun as [[-> _] | (w & ? & ? & ? & ? & ? & ? & _ & _ & _ & -> & _)];
    set_solver.
Qed.

Lemma for_each_monotone (notes : list Note) (pw pw' : gset pystr)
    (h out : trace) :
  for_each notes (process_note W C) pw h = (Ret pw', out) -> pw ⊆ pw'.
Proof.
  revert pw h out. induction notes as [|n notes IH]; intros pw h out.
  - intros [= <- _]. reflexivity.
  - simpl. rewrite bind_run.
    destruct (process_note W C n pw h) as [[pw1|e] o1] eqn:H1;
      [|discriminate].
    destruct (for_each notes _ pw1 _) as [[pw2|e] o2] eqn:H2;
      [|discriminate].
    intros [= <- _].
    apply process_note_monotone in H1. apply IH in H2. set_solver.
Qed.


(** C6. When a note bearing [w] has been written ([updateNoteFields]
    sent, the body returned), a later blank note bearing [w] in the same
    run is skipped: it emits two lines of log, no request, no write. *)
Theorem duplicate_word_skipped
    (n1 : Note) (mid : list Note) (n2 : Note) (w : pystr)
    (pw pw1 pw2 : gset pystr) (h o1 o2 : trace) :
  fields n1 !! py "Word" = Some w ->
  fields n2 !! py "Word" = Some w ->
  audio_blank n2 ->
  process_note W C n1 pw h = (Ret pw1, o1) ->
  updates o1 <> [] ->
  for_each mid (process_note W C) pw1 (h ++ o1) = (Ret pw2, o2) ->
  let skip := [making_cards w; EvEmit LogInfo (MsgAlreadyProcessed w)] in
  process_note W C n2 pw2 ((h ++ o1) ++ o2) = (Ret pw2, skip) /\
  for_each (n1 :: mid ++ [n2]) (process_note W C) pw h
    = (Ret pw2, o1 ++ o2 ++ skip) /\
  network_calls skip = [] /\ updates skip = [].
Proof.
  intros Hw1 Hw2 Hb2 H1 Hupd Hmid skip.
  assert (w ∈ pw2) as Hin.
  { apply for_each_monotone in Hmid.
    pose proof H1 as Hinv. apply process_note_returns_inv in Hinv.
    destruct Hinv as [[_ Hno] | (w' & ? & ? & ? & ? & ? & ? & Hw' & _ & _ & -> & _)];
      [contradiction|].
    assert (w' = w) as -> by congruence. set_solver. }
  pose proof (process_note_duplicate W C n2 pw2 ((h ++ o1) ++ o2) w
                Hw2 Hb2 Hin) as H2.
  split; [exact H2|]. split; [|split; reflexivity].
  cbn [for_each]. rewrite bind_run, H1, for_each_app, Hmid.
  cbn [for_each]. rewrite bind_run, H2. cbn [ret].
  rewrite app_nil_r. reflexivity.
Qed.

End Loop.

(** ** The dictionary lookup *)

Section Lookup.

Variable W : World.
Variable C : Config.


(** In a supported locale the lookup starts with the request for the
    page of the word. *)
Lemma get_cambridge_word_info_requests (word language : pystr)
    (loc : Locale) (h : trace) :
  language_dict !! language = Some loc ->
  exists r rest,
    get_cambridge_word_info W C word language h =
    (r, EvCambridgeGet (cambridge_url loc word) :: rest).
Proof.
  intros Hloc. unfold get_cambridge_word_info. rewrite Hloc.
  fold (cambridge_url loc word).
  rewrite bind_run, try_except_run, bind_run. cbn [perform].
  destruct (get_cambridge W h _) as [response|e].
  - rewrite bind_run. unfold raise_for_status.
    destruct (_ && _); cbn [raise ret is_RequestException emit].
    + rewrite bind_run. cbn [emit ret]. eauto.
    + eauto.
  - destruct (is_RequestException e).
    + rewrite bind_run. cbn [emit ret]. eauto.
    + eauto.
Qed.

End Lookup.

(** ** No audio from either source *)

Section NoAudio.

Variable W : World.
Variable C : Config.


End NoAudio.

(** ** Publishing and writing the note *)

Section Publish.

Variable W : World.
Variable C : Config.

(** From the upload on, the loop body is decided by what the upload and
    [add_word_info_to_note] return. *)
Lemma reaches_publish_run (n : Note) (pw : gset pystr) (h : trace)
    (w : pystr) (info : WordInfo) (tag f : pystr) (pre : trace) :
  reaches_publish W C n pw h w info tag f pre ->
  updates pre = [] /\
  process_note W C n pw h =
  match upload_audio_to_anki W C f (h ++ pre) with
  | (Ret v, o_u) =>
      if truthy v then
        match add_word_info_to_note W (note n) (default [] v)
                (Scalar (VStr (definition info)))
                (VList (map VStr (examples info)))
                ((h ++ pre) ++ o_u) with
        | (Ret _, o_w) => (Ret (pw ∪ {[ w ]}), pre ++ o_u ++ o_w)
        | (Raise e, o_w) => (Raise e, pre ++ o_u ++ o_w)
        end
      else (Ret pw, pre ++ o_u ++ [EvEmit Stdout (MsgUploadFailed w)])
  | (Raise e, o_u) => (Raise e, pre ++ o_u)
  end.
Proof.
  intros (o_l & u & o_f & o_d & Hw & Hb & Hin & Hl & Hsrc & Hu & -> & Hd & ->).
  split.
  { apply updates_stages.
    - exact (emits_run _ _ _ _ _
               (get_cambridge_word_info_no_update W C w (LANGUAGE C)) Hl).
    - unfold source_yields in Hsrc.
      destruct (truthy (audio_url info)).
      + destruct Hsrc as (_ & _ & ->). constructor.
      + destruct Hsrc as (Hf & _).
        exact (emits_run _ _ _ _ _
                 (get_vocalware_tts_url_no_update W C w) Hf).
    - exact (emits_run _ _ _ _ _ (download_audio_no_update W _ _) Hd). }
  rewrite (process_note_fresh W C n pw h w Hw Hb Hin), Hl.
  rewrite (after_lookup_run W C n w info pw _ u tag o_f Hsrc).
  rewrite store_audio_run by exact Hu. cbv zeta. rewrite Hd.
  match goal with
  | |- context [upload_audio_to_anki W C ?f' ?h1] =>
      replace (h ++ making_cards w
                 :: o_l ++ o_f ++ EvUuid4 :: o_d) with h1
        by (rewrite <- !app_assoc; reflexivity);
      destruct (upload_audio_to_anki W C f' h1) as [[v|e] o_u]
  end.
  - destruct (truthy v).
    + destruct (add_word_info_to_note W _ _ _ _ _) as [[[]|e] o_w];
        simpl; rewrite <- !app_assoc; reflexivity.
    + simpl. rewrite <- !app_assoc. reflexivity.
  - simpl. rewrite <- !app_assoc. reflexivity.
Qed.

Lemma publish_failure_returns_None (f : pystr) (h : trace) :
  publish_failure W C f h ->
  exists out, upload_audio_to_anki W C f h = (Ret None, out).
Proof.
  intros Hfail. unfold upload_audio_to_anki.
  destruct Hfail as [e Hr | data e Hr Hp | data response e Hr Hp Hj
                    | data response reply err Hr Hp Hj He];
    repeat (progress
              (repeat first
                 [ rewrite bind_run | rewrite try_except_run
                 | progress cbn [perform lift_res emit ret raise] ];
               rewrite ?Hr, ?Hp, ?Hj, ?He));
    eauto.
Qed.

(** C10. The upload always returns, and returns [None] on every
    failure; after a falsy result the loop body sends no
    [updateNoteFields] and returns the set of processed words
    unchanged. *)
Theorem publish_never_raises :
  (forall (f : pystr) (h : trace),
      exists v out, upload_audio_to_anki W C f h = (Ret v, out)) /\
  (forall (f : pystr) (h : trace),
      publish_failure W C f h ->
      exists out, upload_audio_to_anki W C f h = (Ret None, out)) /\
  (forall (n : Note) (pw : gset pystr) (h : trace) (w : pystr)
          (info : WordInfo) (tag f : pystr) (pre : trace)
          (v : option pystr) (o_u : trace),
      reaches_publish W C n pw h w info tag f pre ->
      upload_audio_to_anki W C f (h ++ pre) = (Ret v, o_u) ->
      truthy v = false ->
      let out := pre ++ o_u ++ [EvEmit Stdout (MsgUploadFailed w)] in
      process_note W C n pw h = (Ret pw, out) /\ updates out = []).
Proof.
  split; [apply upload_audio_to_anki_returns|].
  split; [apply publish_failure_returns_None|].
  intros n pw h w info tag f pre v o_u Hreach Hup Hv out.
  destruct (reaches_publish_run n pw h w info tag f pre Hreach)
    as [Hpre Hrun].
  rewrite Hup, Hv in Hrun. split; [exact Hrun|].
  subst out. rewrite !updates_app, Hpre.
  rewrite (updates_not_update o_u); [reflexivity|].
  exact (emits_run _ _ _ _ _ (upload_audio_to_anki_no_update W C f) Hup).
Qed.

(** C1, amended. On the VocalWare path the one [updateNoteFields] request
    of the loop body carries the definition and the examples of the
    dictionary entry, the examples joined by line breaks. *)
Theorem fallback_writes_dictionary_text
    (n : Note) (pw : gset pystr) (h : trace) (w : pystr)
    (info : WordInfo) (f : pystr) (pre : trace)
    (name : pystr) (o_u : trace) :
  reaches_publish W C n pw h w info (py "vocalware") f pre ->
  truthy (audio_url info) = false ->
  upload_audio_to_anki W C f (h ++ pre) = (Ret (Some name), o_u) ->
  name <> [] ->
  isinstance_int (note n) = true ->
  updates (process_note W C n pw h).2 =
  [EvUpdateNoteFields (note n) (py "[sound:" ++ name ++ py "]")
     (definition info) (join (py "<br>") (examples info))].
Proof.
  intros Hreach _ Hup Hname Hid.
  destruct (reaches_publish_run n pw h w info _ f pre Hreach)
    as [Hpre Hrun].
  rewrite Hrun, Hup.
  assert (truthy (Some name) = true) as ->
    by (destruct name; [congruence | reflexivity]).
  cbn [default]. unfold id.
  rewrite (add_word_info_to_note_run W (note n) name _ _ _ Hid).
  pose proof (emits_run _ _ _ _ _ (upload_audio_to_anki_no_update W C f) Hup)
    as Hnu.
  destruct (post_updateNoteFields W _ _ _ _ _) as [response|e];
    [destruct (json response) as [reply|e]|];
    cbn [snd]; rewrite !updates_app, Hpre, (updates_not_update o_u Hnu);
    try reflexivity.
  destruct (error reply); reflexivity.
Qed.

(** C4, amended. A word joins the set of processed words only after the
    upload returned a non-empty name and [add_word_info_to_note] was
    called and returned; and [add_word_info_to_note] returns, after
    logging, whether or not the store reports an error. *)
Theorem processed_only_after_update_call :
  (forall (n : Note) (pw pw' : gset pystr) (h out : trace) (w : pystr),
      process_note W C n pw h = (Ret pw', out) ->
      w ∈ pw' ->
      w ∉ pw ->
      fields n !! py "Word" = Some w /\
      exists pre f name info o_u o_w,
        out = pre ++ o_u ++ o_w /\
        upload_audio_to_anki W C f (h ++ pre) = (Ret (Some name), o_u) /\
        name <> [] /\
        add_word_info_to_note W (note n) name
          (Scalar (VStr (definition info)))
          (VList (map VStr (examples info)))
          ((h ++ pre) ++ o_u) = (Ret tt, o_w)) /\
  (forall (note_id : pyval) (name d : pystr) (x : list pystr) (h : trace)
          (response : Response (AnkiReply unit)) (reply : AnkiReply unit),
      isinstance_int note_id = true ->
      let audio := py "[sound:" ++ name ++ py "]" in
      post_updateNoteFields W h note_id audio d (join (py "<br>") x)
        = Ret response ->
      json response = Ret reply ->
      add_word_info_to_note W note_id name (Scalar (VStr d))
        (VList (map VStr x)) h =
      (Ret tt,
       [EvUpdateNoteFields note_id audio d (join (py "<br>") x);
        match error reply with
        | Some err => EvEmit LogError (MsgUpdateError note_id err)
        | None => EvEmit LogInfo (MsgUpdated note_id)
        end])).
Proof.
  split.
  - intros n pw pw' h out w Hrun Hin Hout.
    apply process_note_returns_inv in Hrun.
    destruct Hrun as [[-> _] | Hrun]; [contradiction|].
    destruct Hrun as (w' & pre & f & name & info & o_u & o_w & Hw' & _ & _
                      & -> & -> & _ & _ & Hup & Hname & Hadd).
    apply elem_of_union in Hin.
    destruct Hin as [Hin | Hin%elem_of_singleton]; [contradiction|].
    subst w'. split; [exact Hw'|].
    exists pre, f, name, info, o_u, o_w. repeat split; assumption.
  - intros note_id name d x h response reply Hid audio Hpost Hjson.
    rewrite (add_word_info_to_note_run W note_id name d x h Hid).
    fold audio. rewrite Hpost, Hjson. reflexivity.
Qed.

End Publish.

(** ** The definition text *)

Lemma rstrip_colons (s : pystr) :
  exists k, s = rstrip (py ":") s ++ replicate k 58%N /\
            last (rstrip (py ":") s) <> Some 58%N.
Proof.
  unfold rstrip.
  destruct (rstrip_by_split (fun c => existsb (N.eqb c) (py ":")) s)
    as (d & Hs & Hd).
  exists (length d). split.
  - rewrite Hs at 1. f_equal. clear Hs.
    induction Hd as [|c d Hc _ IH]; [reflexivity|].
    simpl. rewrite <- IH. f_equal.
    change ((c =? 58)%N || false = true) in Hc.
    rewrite orb_false_r in Hc. apply N.eqb_eq in Hc. exact Hc.
  - intros Hlast. apply rstrip_by_last in Hlast. discriminate.
Qed.

Section Definition_text.

Variable W : World.
Variable C : Config.

(** What the lookup returns for a page that was fetched. *)
Lemma get_cambridge_word_info_fetched (word language : pystr) (h : trace)
    (loc : Locale) (response : Response unit) :
  language_dict !! language = Some loc ->
  get_cambridge W h (cambridge_url loc word) = Ret response ->
  ~ (400 <= status_code response < 600) ->
  let soup := html_parser C (text response) in
  get_cambridge_word_info W C word language h =
  (Ret (Some
     {| audio_url :=
          match find soup (py "source") (py "type", py "audio/mpeg") with
          | Some t =>
              match attrs t !! py "src" with
              | Some src =>
                  Some (py "https://dictionary.cambridge.org" ++ src)
              | None => None
              end
          | None => None
          end;
        definition :=
          match find soup (loc_tag loc) (py "class", loc_class loc) with
          | Some t => rstrip (py ":") (strip (tag_text t))
          | None => py "No definition found."
          end;
        examples :=
          map (fun t => strip (tag_text t))
            (take 3 (find_all soup (py "div")
                       (py "class", py "examp dexamp"))) |}),
   [EvCambridgeGet (cambridge_url loc word)]).
Proof.
  intros Hloc Hget Hstatus soup.
  unfold get_cambridge_word_info. rewrite Hloc.
  fold (cambridge_url loc word).
  rewrite bind_run, try_except_run, bind_run. cbn [perform].
  rewrite Hget, bind_run. unfold raise_for_status.
  destruct (_ && _) eqn:Hs.
  { exfalso. apply Hstatus. apply andb_true_iff in Hs. lia. }
  cbn [ret]. fold soup.
  destruct (find_all soup _ _); reflexivity.
Qed.

(** C8, amended. For a page that was fetched the lookup returns an entry
    whose definition is a string: the placeholder when the locale's
    definition block is absent, and otherwise the stripped text of the
    block without any of its trailing colons. *)
Theorem definition_drops_all_trailing_colons
    (word language : pystr) (h : trace) (loc : Locale)
    (response : Response unit) :
  language_dict !! language = Some loc ->
  get_cambridge W h (cambridge_url loc word) = Ret response ->
  ~ (400 <= status_code response < 600) ->
  exists info,
    get_cambridge_word_info W C word language h =
      (Ret (Some info), [EvCambridgeGet (cambridge_url loc word)]) /\
    match find (html_parser C (text response)) (loc_tag loc)
            (py "class", loc_class loc) with
    | None => definition info = py "No definition found."
    | Some t =>
        exists k,
          strip (tag_text t) = definition info ++ replicate k 58%N /\
          last (definition info) <> Some 58%N
    end.
Proof.
  intros Hloc Hget Hstatus.
  eexists. split.
  - apply get_cambridge_word_info_fetched; eassumption.
  - cbn [definition].
    destruct (find _ (loc_tag loc) _) as [t|]; [|reflexivity].
    apply rstrip_colons.
Qed.

End Definition_text.

(** ** The download *)

Section Download.

Variable W : World.


End Download.

(** ** Failures that end the run *)

Section Crashes.

Variable W : World.
Variable C : Config.

(** C2. When the dictionary request raises a request exception, the
    lookup logs it and returns [None]; the loop body then subscripts
    [None] and raises [TypeError] before any VocalWare request, and the
    loop stops there: the notes that follow are not processed. *)
Theorem lookup_transport_error_aborts_batch
    (n : Note) (rest : list Note) (w : pystr) (pw : gset pystr)
    (h : trace) (loc : Locale) (e : exn) :
  fields n !! py "Word" = Some w ->
  audio_blank n ->
  w ∉ pw ->
  language_dict !! LANGUAGE C = Some loc ->
  get_cambridge W (h ++ [making_cards w]) (cambridge_url loc w) = Raise e ->
  is_RequestException e = true ->
  let log := [EvCambridgeGet (cambridge_url loc w);
              EvEmit LogError (MsgCambridgeFailed e)] in
  get_cambridge_word_info W C w (LANGUAGE C) (h ++ [making_cards w])
    = (Ret None, log) /\
  for_each (n :: rest) (process_note W C) pw h
    = (Raise TypeError, making_cards w :: log).
Proof.
  intros Hw Hb Hin Hloc Hget He log.
  assert (get_cambridge_word_info W C w (LANGUAGE C) (h ++ [making_cards w])
          = (Ret None, log)) as Hl.
  { unfold get_cambridge_word_info. rewrite Hloc.
    fold (cambridge_url loc w).
    rewrite bind_run, try_except_run, bind_run. cbn [perform].
    rewrite Hget, He. reflexivity. }
  split; [exact Hl|].
  cbn [for_each]. rewrite bind_run.
  rewrite (process_note_fresh W C n pw h w Hw Hb Hin), Hl. reflexivity.
Qed.

(** C3. When the listing request raises one of the exceptions
    [get_cards] catches, the handler reads the unbound name [url] and
    raises [NameError]: nothing is logged, nothing is returned, and
    [main] ends with that exception. *)
Theorem listing_failure_raises_NameError
    (deck_name : pystr) (h : trace) (e : exn) :
  post_findCards W h (py "deck:" ++ deck_name) = Raise e ->
  is_get_cards_caught e = true ->
  get_cards W deck_name h
    = (Raise NameError, [EvFindCards (py "deck:" ++ deck_name)]) /\
  main W C deck_name h
    = (Raise NameError, [EvFindCards (py "deck:" ++ deck_name)]).
Proof.
  intros Hpost He.
  assert (get_cards W deck_name h
          = (Raise NameError, [EvFindCards (py "deck:" ++ deck_name)]))
    as Hc.
  { unfold get_cards.
    rewrite bind_run, try_except_run, bind_run. cbn [perform].
    rewrite Hpost, He. reflexivity. }
  split; [exact Hc|].
  unfold main. rewrite bind_run, Hc. reflexivity.
Qed.

End Crashes.

(** ** The theorems at concrete decks *)

Section Concrete.

Import Sample Cases.

Lemma blank_card_blank : audio_blank blank_card.
Proof. apply audio_test_blank. vm_compute. reflexivity. Qed.

Lemma second_card_blank : audio_blank second_card.
Proof. apply audio_test_blank. vm_compute. reflexivity. Qed.

Lemma done_card_has_audio : has_audio done_card.
Proof.
  exists (py "[sound:u.mp3]"). split; [vm_compute; reflexivity|].
  exists 91%N. split; [apply list_elem_of_here | reflexivity].
Qed.

Lemma other_card_has_audio : has_audio other_card.
Proof.
  exists (py "[sound:s.mp3]"). split; [vm_compute; reflexivity|].
  exists 91%N. split; [apply list_elem_of_here | reflexivity].
Qed.

Lemma idempotent_on_complete_deck_witness :
  let W := world_ok [done_card; other_card] in
  let C := config page_full in
  exists r out,
    main W C (py "Test") [] = (r, out) /\
    network_calls out =
      [EvFindCards (py "deck:" ++ py "Test"); EvCardsInfo (Some [1; 2])] /\
    updates out = [] /\
    (Forall (fun n => is_Some (fields n !! py "Word"))
       [done_card; other_card] -> r = Ret tt).
Proof.
  intros W C.
  apply (idempotent_on_complete_deck W C (py "Test") [] (Some [1; 2])
           [EvFindCards (py "deck:" ++ py "Test")]
           [done_card; other_card]
           [EvCardsInfo (Some [1; 2])]).
  - vm_compute. reflexivity.
  - vm_compute. reflexivity.
  - repeat constructor;
      [exact done_card_has_audio | exact other_card_has_audio].
Defined.

Lemma word_fresh : ubiquitous ∉ (∅ : gset pystr).
Proof. apply not_elem_of_empty. Qed.

Lemma reaches_publish_cambridge (W : World) (o_d : trace) :
  let C := config page_full in
  get_cambridge_word_info W C ubiquitous (LANGUAGE C) [making]
    = (Ret (Some info_full), [asked]) ->
  uuid4 W [making; asked] = py "6f1c" ->
  download_audio W audio_address cambridge_file [making; asked; EvUuid4]
    = (Ret true, o_d) ->
  reaches_publish W C blank_card ∅ [] ubiquitous info_full
    (py "cambridge") cambridge_file (making :: [asked] ++ [] ++ EvUuid4 :: o_d).
Proof.
  intros C Hl Hid Hd.
  exists [asked], (Some audio_address), [], o_d. cbv zeta.
  split; [vm_compute; reflexivity|].
  split; [exact blank_card_blank|].
  split; [exact word_fresh|].
  split; [exact Hl|].
  split; [repeat split|].
  split; [reflexivity|].
  split; [unfold cambridge_file; f_equal; symmetry; exact Hid|].
  split; [exact Hd | reflexivity].
Qed.

Lemma reaches_publish_vocalware (W : World) (o_d : trace) :
  let C := config page_silent in
  get_cambridge_word_info W C ubiquitous (LANGUAGE C) [making]
    = (Ret (Some info_silent), [asked]) ->
  get_vocalware_tts_url W C ubiquitous [making; asked]
    = (Ret (Some tts_address), [tts_request]) ->
  uuid4 W [making; asked; tts_request] = py "6f1c" ->
  download_audio W tts_address vocalware_file
    [making; asked; tts_request; EvUuid4] = (Ret true, o_d) ->
  reaches_publish W C blank_card ∅ [] ubiquitous info_silent
    (py "vocalware") vocalware_file
    (making :: [asked] ++ [tts_request] ++ EvUuid4 :: o_d).
Proof.
  intros C Hl Hf Hid Hd.
  exists [asked], (Some tts_address), [tts_request], o_d. cbv zeta.
  split; [vm_compute; reflexivity|].
  split; [exact blank_card_blank|].
  split; [exact word_fresh|].
  split; [exact Hl|].
  split; [split; [exact Hf | reflexivity]|].
  split; [reflexivity|].
  split; [unfold vocalware_file; f_equal; symmetry; exact Hid|].
  split; [exact Hd | reflexivity].
Qed.

Lemma duplicate_word_skipped_witness :
  let W := world_ok [blank_card; other_card; second_card] in
  let C := config page_full in
  let o1 := pre_cambridge ++ uploaded cambridge_file
              ++ [written cambridge_file (definition info_full)
                    (py "Mobile phones are ubiquitous these days.");
                  EvEmit LogInfo (MsgUpdated (Scalar (VInt 1)))] in
  let o2 := [EvEmit LogInfo (MsgAudioExists (py "serene"))] in
  let skip := [making; EvEmit LogInfo (MsgAlreadyProcessed ubiquitous)] in
  let pw := (∅ ∪ {[ ubiquitous ]} : gset pystr) in
  process_note W C second_card pw (([] ++ o1) ++ o2) = (Ret pw, skip) /\
  for_each (blank_card :: [other_card] ++ [second_card]) (process_note W C)
    ∅ [] = (Ret pw, o1 ++ o2 ++ skip) /\
  network_calls skip = [] /\ updates skip = [].
Proof.
  intros W C o1 o2 skip pw.
  apply (duplicate_word_skipped W C blank_card [other_card] second_card
           ubiquitous ∅ pw pw [] o1 o2).
  - vm_compute. reflexivity.
  - vm_compute. reflexivity.
  - exact second_card_blank.
  - vm_compute. reflexivity.
  - vm_compute. discriminate.
  - vm_compute. reflexivity.
Defined.


Lemma fallback_writes_dictionary_text_witness :
  let W := world_ok [blank_card] in
  let C := config page_silent in
  updates (process_note W C blank_card ∅ []).2 =
  [written vocalware_file (py "No definition found.")
     (py "Mobile phones are ubiquitous these days.")].
Proof.
  intros W C.
  apply (fallback_writes_dictionary_text W C blank_card ∅ [] ubiquitous
           info_silent vocalware_file pre_vocalware vocalware_file
           (uploaded vocalware_file)).
  - apply reaches_publish_vocalware; vm_compute; reflexivity.
  - reflexivity.
  - vm_compute. reflexivity.
  - vm_compute. discriminate.
  - reflexivity.
Defined.

(** C1 as worded fails: on the VocalWare path the note receives the
    placeholder definition and the example of the dictionary page. *)
Lemma fallback_writes_empty_fields_fails :
  ~ fallback_writes_empty_fields (world_ok [blank_card]) (config page_silent)
      blank_card ∅ [].
Proof.
  intros Hclaim.
  destruct (Hclaim ubiquitous info_silent vocalware_file pre_vocalware
              vocalware_file (uploaded vocalware_file))
    with (note_id := Scalar (VInt 1))
         (a := py "[sound:" ++ vocalware_file ++ py "]")
         (d := py "No definition found.")
         (x := py "Mobile phones are ubiquitous these days.")
    as [Hd _].
  - apply reaches_publish_vocalware; vm_compute; reflexivity.
  - reflexivity.
  - vm_compute. reflexivity.
  - vm_compute. discriminate.
  - apply list_elem_of_lookup. exists 8%nat. vm_compute. reflexivity.
  - vm_compute in Hd. discriminate.
Qed.

Lemma processed_only_after_update_call_witness :
  let W := world_rejecting [blank_card] in
  let C := config page_full in
  let o_w := [written cambridge_file (definition info_full)
                (py "Mobile phones are ubiquitous these days.");
              EvEmit LogError
                (MsgUpdateError (Scalar (VInt 1)) (py "cannot edit note"))] in
  (fields blank_card !! py "Word" = Some ubiquitous /\
   exists pre f name info o_u o_w',
     pre_cambridge ++ uploaded cambridge_file ++ o_w = pre ++ o_u ++ o_w' /\
     upload_audio_to_anki W C f ([] ++ pre) = (Ret (Some name), o_u) /\
     name <> [] /\
     add_word_info_to_note W (note blank_card) name
       (Scalar (VStr (definition info)))
       (VList (map VStr (examples info)))
       (([] ++ pre) ++ o_u) = (Ret tt, o_w')) /\
  add_word_info_to_note W (Scalar (VInt 1)) cambridge_file
    (Scalar (VStr (definition info_full)))
    (VList (map VStr (examples info_full)))
    (pre_cambridge ++ uploaded cambridge_file) = (Ret tt, o_w).
Proof.
  intros W C o_w.
  destruct (processed_only_after_update_call W C) as [Honly Hlogged].
  split.
  - apply (Honly blank_card ∅ (∅ ∪ {[ ubiquitous ]}) []
             (pre_cambridge ++ uploaded cambridge_file ++ o_w) ubiquitous).
    + vm_compute. reflexivity.
    + apply elem_of_union_r, elem_of_singleton. reflexivity.
    + exact word_fresh.
  - apply (Hlogged (Scalar (VInt 1)) cambridge_file (definition info_full)
             (examples info_full) (pre_cambridge ++ uploaded cambridge_file)
             (http 200 (reply None (Some (py "cannot edit note"))))
             {| result := None; error := Some (py "cannot edit note") |}).
    + reflexivity.
    + reflexivity.
    + reflexivity.
Defined.

(** C4 as worded fails: the store rejects the update, and the word is in
    the set of processed words all the same. *)
Lemma rejected_update_not_processed_fails :
  ~ rejected_update_not_processed (world_rejecting [blank_card])
      (config page_full) blank_card ∅ [].
Proof.
  intros Hclaim.
  apply (Hclaim ubiquitous (∅ ∪ {[ ubiquitous ]})
           (pre_cambridge ++ uploaded cambridge_file
              ++ [written cambridge_file (definition info_full)
                    (py "Mobile phones are ubiquitous these days.");
                  EvEmit LogError
                    (MsgUpdateError (Scalar (VInt 1))
                       (py "cannot edit note"))])).
  - vm_compute. reflexivity.
  - exact word_fresh.
  - vm_compute. reflexivity.
  - exists (pre_cambridge ++ uploaded cambridge_file), (Scalar (VInt 1)),
      (py "[sound:" ++ cambridge_file ++ py "]"), (definition info_full),
      (py "Mobile phones are ubiquitous these days."),
      [EvEmit LogError
         (MsgUpdateError (Scalar (VInt 1)) (py "cannot edit note"))],
      (http 200 (reply None (Some (py "cannot edit note")))),
      {| result := None; error := Some (py "cannot edit note") |},
      (py "cannot edit note").
    repeat split.
  - apply elem_of_union_r, elem_of_singleton. reflexivity.
Qed.

Lemma definition_drops_all_trailing_colons_witness :
  let W := world_ok [blank_card] in
  let C := config page_colons in
  exists info,
    get_cambridge_word_info W C (py "a") (py "en") [] =
      (Ret (Some info), [EvCambridgeGet (cambridge_url en (py "a"))]) /\
    match find (html_parser C (text (http 200 (Ret tt)))) (loc_tag en)
            (py "class", loc_class en) with
    | None => definition info = py "No definition found."
    | Some t =>
        exists k,
          strip (tag_text t) = definition info ++ replicate k 58%N /\
          last (definition info) <> Some 58%N
    end.
Proof.
  intros W C.
  apply (definition_drops_all_trailing_colons W C (py "a") (py "en") [] en
           (http 200 (Ret tt))).
  - vm_compute. reflexivity.
  - reflexivity.
  - simpl. lia.
Defined.

(** C8 as worded fails: of the two colons that end the block, none is
    kept. *)
Lemma definition_drops_one_colon_fails :
  ~ definition_drops_one_colon (world_ok [blank_card]) (config page_colons)
      (py "a") (py "en") [].
Proof.
  intros Hclaim.
  specialize (Hclaim en (http 200 (Ret tt))
                {| attrs := ∅; tag_text := py " a:: " |}
                {| audio_url := None; definition := py "a"; examples := [] |}
                [EvCambridgeGet (cambridge_url en (py "a"))]).
  assert (py "a" = py "a:") as Habsurd.
  { apply Hclaim.
    - vm_compute. reflexivity.
    - reflexivity.
    - vm_compute. reflexivity.
    - vm_compute. reflexivity. }
  vm_compute in Habsurd. discriminate.
Qed.



Lemma publish_never_raises_witness :
  let W := world_media_error [blank_card] in
  let C := config page_full in
  let h := [] ++ pre_cambridge in
  publish_failure W C cambridge_file h /\
  (exists out, upload_audio_to_anki W C cambridge_file h = (Ret None, out)) /\
  let out := pre_cambridge
               ++ (uploaded cambridge_file
                     ++ [EvEmit Stdout
                           (MsgUploadError cambridge_file (py "disk full"))])
               ++ [EvEmit Stdout (MsgUploadFailed ubiquitous)] in
  process_note W C blank_card ∅ [] = (Ret ∅, out) /\ updates out = [].
Proof.
  intros W C h.
  destruct (publish_never_raises W C) as (_ & Hnone & Hskip).
  assert (publish_failure W C cambridge_file h) as Hfail.
  { apply (store_error W C cambridge_file h []
             (http 200 (reply None (Some (py "disk full"))))
             {| result := None; error := Some (py "disk full") |}
             (py "disk full")); reflexivity. }
  split; [exact Hfail|]. split; [exact (Hnone cambridge_file h Hfail)|].
  apply (Hskip blank_card ∅ [] ubiquitous info_full (py "cambridge")
           cambridge_file pre_cambridge None).
  - apply reaches_publish_cambridge; vm_compute; reflexivity.
  - vm_compute. reflexivity.
  - reflexivity.
Defined.

Lemma lookup_transport_error_aborts_batch_witness :
  let W := world_offline [blank_card; second_card] in
  let C := config page_full in
  let log := [asked; EvEmit LogError (MsgCambridgeFailed ConnectionError)] in
  get_cambridge_word_info W C ubiquitous (LANGUAGE C) ([] ++ [making])
    = (Ret None, log) /\
  for_each (blank_card :: [second_card]) (process_note W C) ∅ []
    = (Raise TypeError, making :: log).
Proof.
  intros W C log.
  apply (lookup_transport_error_aborts_batch W C blank_card [second_card]
           ubiquitous ∅ [] en ConnectionError).
  - vm_compute. reflexivity.
  - exact blank_card_blank.
  - exact word_fresh.
  - vm_compute. reflexivity.
  - reflexivity.
  - reflexivity.
Defined.

Lemma listing_failure_raises_NameError_witness :
  let W := world_no_store in
  let C := config page_full in
  get_cards W (py "Test") []
    = (Raise NameError, [EvFindCards (py "deck:" ++ py "Test")]) /\
  main W C (py "Test") []
    = (Raise NameError, [EvFindCards (py "deck:" ++ py "Test")]).
Proof.
  intros W C.
  apply (listing_failure_raises_NameError W C (py "Test") [] ConnectionError).
  - reflexivity.
  - reflexivity.
Defined.

End Concrete.

(** * Further properties of the script *)

(** ** Start-up *)

Lemma truthy_true (v : option pystr) :
  truthy v = true <-> exists s, v = Some s /\ s <> [].
Proof.
  destruct v as [[|c s]|]; simpl.
  - split; [discriminate | intros (s' & [= <-] & Hs); congruence].
  - split; [|reflexivity].
    intros _. exists (c :: s). split; [reflexivity | discriminate].
  - split; [discriminate | intros (s' & [=] & _)].
Qed.

(** X1. The credentials load exactly when the three variables are set and
    not empty, and then they are the values of the variables; in every
    other environment (an empty value counts as missing) the load raises
    [EnvironmentError]. *)
Theorem load_credentials_needs_three_values (environ : gmap pystr pystr) :
  (forall api account secret,
      load_credentials environ = Ret (api, account, secret) <->
      (environ !! py "VW_API_ID" = Some api /\ api <> []) /\
      (environ !! py "VW_ACCOUNT_ID" = Some account /\ account <> []) /\
      (environ !! py "VW_SECRET_PHRASE" = Some secret /\ secret <> [])) /\
  ((exists api account secret,
       load_credentials environ = Ret (api, account, secret)) \/
   load_credentials environ = Raise OSError).
Proof.
  split.
  - intros api account secret. unfold load_credentials.
    destruct (environ !! py "VW_API_ID") as [[|c1 a]|];
      destruct (environ !! py "VW_ACCOUNT_ID") as [[|c2 b]|];
      destruct (environ !! py "VW_SECRET_PHRASE") as [[|c3 s]|];
      simpl; (split; [|intros ((H1 & H1') & (H2 & H2') & (H3 & H3'));
                       simplify_eq; done]);
      try discriminate.
    intros [= <- <- <-]. repeat split; discriminate.
  - unfold load_credentials. destruct (_ || _); [right; reflexivity|].
    left. eauto.
Qed.

(** ** The locales *)

Lemma language_dict_keys (language : pystr) :
  is_Some (language_dict !! language) <->
  language = py "en" \/ language = py "cn".
Proof.
  unfold language_dict. split.
  - intros [loc Hloc].
    destruct (decide (language = py "en")) as [|Hen]; [left; assumption|].
    rewrite lookup_insert_ne in Hloc by congruence.
    destruct (decide (language = py "cn")) as [|Hcn]; [right; assumption|].
    rewrite lookup_singleton_ne in Hloc by congruence. discriminate.
  - intros [-> | ->].
    + rewrite lookup_insert_eq. eauto.
    + rewrite lookup_insert_ne by (vm_compute; discriminate).
      rewrite lookup_singleton_eq. eauto.
Qed.

Section Locales.

Variable W : World.
Variable C : Config.

(** X2. For a language other than [en] and [cn] the lookup sends no
    request: it logs the unsupported language and returns [None]. *)
Theorem unsupported_language_sends_nothing
    (word language : pystr) (h : trace) :
  language <> py "en" ->
  language <> py "cn" ->
  get_cambridge_word_info W C word language h =
  (Ret None, [EvEmit LogError (MsgUnsupportedLanguage language)]).
Proof.
  intros Hen Hcn. unfold get_cambridge_word_info.
  destruct (language_dict !! language) as [loc|] eqn:Hloc; [|reflexivity].
  exfalso. destruct (proj1 (language_dict_keys language)); eauto.
Qed.

(** X3. Every language the command line accepts, and its default, has a
    locale: for such a language the lookup sends the request for the page
    of the word. *)
Theorem accepted_languages_are_supported
    (word language : pystr) (h : trace) :
  language ∈ language_choices ->
  default_language ∈ language_choices /\
  exists loc r rest,
    language_dict !! language = Some loc /\
    get_cambridge_word_info W C word language h =
    (r, EvCambridgeGet (cambridge_url loc word) :: rest).
Proof.
  intros Hin. split; [apply list_elem_of_here|].
  assert (is_Some (language_dict !! language)) as [loc Hloc].
  { apply language_dict_keys. unfold language_choices in Hin.
    apply elem_of_cons in Hin as [-> | Hin]; [left; reflexivity|].
    apply list_elem_of_singleton in Hin as ->. right; reflexivity. }
  destruct (get_cambridge_word_info_requests W C word language loc h Hloc)
    as (r & rest & Hrun).
  exists loc, r, rest. split; assumption.
Qed.

End Locales.

(** ** What the lookup keeps of the page *)

Lemma rstrip_by_head (p : N -> bool) (s : pystr) (c : N) :
  head (rstrip_by p s) = Some c -> head s = Some c.
Proof.
  destruct (rstrip_by_split p s) as (d & Hs & _).
  intros Hhead. rewrite Hs.
  destruct (rstrip_by p s) as [|a t]; [discriminate|].
  exact Hhead.
Qed.

Lemma strip_trimmed (s : pystr) : trimmed (strip s).
Proof.
  unfold strip. split.
  - intros c Hc. apply rstrip_by_head in Hc.
    destruct (lstrip_by is_space s) as [|a t] eqn:E; [discriminate|].
    injection Hc as ->. eapply lstrip_by_head, E.
  - intros c Hc. eapply rstrip_by_last, Hc.
Qed.

Lemma replace_char_no_old (old : N) (new s : pystr) :
  old ∉ new -> old ∉ replace_char old new s.
Proof.
  intros Hnew. unfold replace_char.
  induction s as [|c s IH]; simpl; [apply not_elem_of_nil|].
  intros Hin. apply elem_of_app in Hin as [Hin | Hin]; [|exact (IH Hin)].
  destruct (c =? old)%N eqn:Hc; [exact (Hnew Hin)|].
  apply list_elem_of_singleton in Hin. apply N.eqb_neq in Hc. congruence.
Qed.

Section Page.

Variable W : World.
Variable C : Config.

(** X4. For a page that was fetched, the entry holds at most three
    examples: the texts of the first three example blocks of the page, in
    order, each without white space at either end. *)
Theorem examples_are_three_trimmed_texts
    (word language : pystr) (h : trace) (loc : Locale)
    (response : Response unit) :
  language_dict !! language = Some loc ->
  get_cambridge W h (cambridge_url loc word) = Ret response ->
  ~ (400 <= status_code response < 600) ->
  exists info out,
    get_cambridge_word_info W C word language h = (Ret (Some info), out) /\
    (length (examples info) <= 3)%nat /\
    Forall trimmed (examples info) /\
    examples info =
      map (fun t => strip (tag_text t))
        (take 3 (find_all (html_parser C (text response)) (py "div")
                   (py "class", py "examp dexamp"))).
Proof.
  intros Hloc Hget Hstatus.
  eexists _, _. split.
  - apply get_cambridge_word_info_fetched; eassumption.
  - cbn [examples]. split; [|split; [|reflexivity]].
    + rewrite length_map, length_take. lia.
    + apply Forall_map, Forall_forall. intros t _. apply strip_trimmed.
Qed.

(** X5. The address of the page never holds a space: in a supported
    locale the lookup requests an address in which every space of the
    word is a hyphen. *)
Theorem requested_address_has_no_space
    (word language : pystr) (h : trace) (loc : Locale) :
  language_dict !! language = Some loc ->
  exists r rest,
    get_cambridge_word_info W C word language h =
      (r, EvCambridgeGet (cambridge_url loc word) :: rest) /\
    (32%N ∉ cambridge_url loc word) /\
    cambridge_url loc word =
      py "https://dictionary.cambridge.org/dictionary/" ++ loc_uri loc
        ++ py "/" ++ replace_char 32 (py "-") word.
Proof.
  intros Hloc.
  destruct (get_cambridge_word_info_requests W C word language loc h Hloc)
    as (r & rest & Hrun).
  exists r, rest. split; [exact Hrun|]. split; [|reflexivity].
  unfold cambridge_url. intros Hin.
  assert (32%N ∉ loc_uri loc) as Huri.
  { unfold language_dict in Hloc.
    destruct (decide (language = py "en")) as [->|Hen].
    - rewrite lookup_insert_eq in Hloc. injection Hloc as <-.
      vm_compute. intros H32. apply list_elem_of_In in H32.
      simpl in H32. intuition discriminate.
    - rewrite lookup_insert_ne in Hloc by congruence.
      apply lookup_singleton_Some in Hloc as [_ <-].
      vm_compute. intros H32. apply list_elem_of_In in H32.
      simpl in H32. intuition discriminate. }
  apply elem_of_app in Hin as [Hin | Hin].
  { apply list_elem_of_In in Hin. vm_compute in Hin. intuition discriminate. }
  apply elem_of_app in Hin as [Hin | Hin]; [exact (Huri Hin)|].
  apply elem_of_app in Hin as [Hin | Hin].
  { apply list_elem_of_In in Hin. vm_compute in Hin. intuition discriminate. }
  revert Hin. apply replace_char_no_old.
  intros Hin. apply list_elem_of_In in Hin. vm_compute in Hin.
  intuition discriminate.
Qed.

End Page.

(** ** Failures that the loop does not catch *)

Section Uncaught.

Variable W : World.
Variable C : Config.

(** X6. An HTTP error status of the dictionary (4xx or 5xx) is logged and
    gives [None], like a transport error; the loop body then subscripts
    [None] and the loop ends in [TypeError], the notes that follow being
    left unprocessed. *)
Theorem lookup_http_error_aborts_batch
    (n : Note) (rest : list Note) (w : pystr) (pw : gset pystr)
    (h : trace) (loc : Locale) (response : Response unit) :
  fields n !! py "Word" = Some w ->
  audio_blank n ->
  w ∉ pw ->
  language_dict !! LANGUAGE C = Some loc ->
  get_cambridge W (h ++ [making_cards w]) (cambridge_url loc w)
    = Ret response ->
  400 <= status_code response < 600 ->
  let log := [EvCambridgeGet (cambridge_url loc w);
              EvEmit LogError (MsgCambridgeFailed HTTPError)] in
  get_cambridge_word_info W C w (LANGUAGE C) (h ++ [making_cards w])
    = (Ret None, log) /\
  for_each (n :: rest) (process_note W C) pw h
    = (Raise TypeError, making_cards w :: log).
Proof.
  intros Hw Hb Hin Hloc Hget Hstatus log.
  assert (get_cambridge_word_info W C w (LANGUAGE C) (h ++ [making_cards w])
          = (Ret None, log)) as Hl.
  { unfold get_cambridge_word_info. rewrite Hloc.
    fold (cambridge_url loc w).
    rewrite bind_run, try_except_run, bind_run. cbn [perform].
    rewrite Hget, bind_run. unfold raise_for_status.
    destruct (_ && _) eqn:Hs; [reflexivity|].
    apply andb_false_iff in Hs. lia. }
  split; [exact Hl|].
  cbn [for_each]. rewrite bind_run.
  rewrite (process_note_fresh W C n pw h w Hw Hb Hin), Hl. reflexivity.
Qed.



End Uncaught.

(** ** Download and upload, read backwards *)

Section Files.

Variable W : World.
Variable C : Config.

(** A [True] from [download_audio], read backwards. *)
Lemma download_audio_True_inv
    (url file_name : pystr) (h out : trace) :
  download_audio W url file_name h = (Ret true, out) ->
  exists response,
    session_get W h {| connect := 3; backoff_factor := 1 # 2 |} url
      = Ret response /\
    ~ (400 <= status_code response < 600) /\
    file_write W
      (h ++ [EvDownloadGet {| connect := 3; backoff_factor := 1 # 2 |} url])
      file_name (content response) = Ret tt /\
    out = [EvDownloadGet {| connect := 3; backoff_factor := 1 # 2 |} url;
           EvFileWrite file_name (content response)].
Proof.
  unfold download_audio.
  rewrite try_except_run, bind_run. cbn [perform].
  destruct (session_get W h _ url) as [response|e].
  - rewrite bind_run. unfold raise_for_status.
    destruct (_ && _) eqn:Hs.
    + cbn [raise is_RequestException]. rewrite bind_run. cbn [emit ret].
      discriminate.
    + cbn [ret]. rewrite bind_run. cbn [perform].
      destruct (file_write W _ _ _) as [[]|e] eqn:Hwrite.
      * cbn [ret]. intros [= <-]. exists response.
        split; [reflexivity|]. split.
        { apply andb_false_iff in Hs. lia. }
        split; [|reflexivity].
        rewrite <- Hwrite. f_equal. rewrite app_nil_r. reflexivity.
      * destruct (is_RequestException e);
          [rewrite bind_run; cbn [emit ret]|]; discriminate.
  - destruct (is_RequestException e);
      [rewrite bind_run; cbn [emit ret]|]; discriminate.
Qed.

(** X9. A failure to write the file is not a request exception, so
    [download_audio] does not catch it: it leaves the function after the
    request and the write. *)
Theorem download_write_error_propagates
    (url file_name : pystr) (h : trace) (response : Response unit)
    (e : exn) :
  let retry := {| connect := 3; backoff_factor := 1 # 2 |} in
  session_get W h retry url = Ret response ->
  ~ (400 <= status_code response < 600) ->
  file_write W (h ++ [EvDownloadGet retry url]) file_name (content response)
    = Raise e ->
  is_RequestException e = false ->
  download_audio W url file_name h =
  (Raise e,
   [EvDownloadGet retry url; EvFileWrite file_name (content response)]).
Proof.
  intros retry Hget Hstatus Hwrite He. unfold download_audio. fold retry.
  rewrite try_except_run, bind_run. cbn [perform].
  rewrite Hget, bind_run. unfold raise_for_status.
  destruct (_ && _) eqn:Hs.
  { exfalso. apply Hstatus. apply andb_true_iff in Hs. lia. }
  cbn [ret]. rewrite bind_run. cbn [perform].
  rewrite app_nil_r, Hwrite, He. reflexivity.
Qed.

(** X10. [upload_audio_to_anki] returns a name only when the file was
    read, the store answered the request that carries the name of the file
    and the base64 of its bytes, the answer has no error, and the name is
    the [result] of that answer. *)
Theorem upload_name_comes_from_store
    (file_name : pystr) (h out : trace) (name : pystr) :
  upload_audio_to_anki W C file_name h = (Ret (Some name), out) ->
  exists data response reply,
    file_read W h file_name = Ret data /\
    post_storeMediaFile W (h ++ [EvFileRead file_name]) file_name
      (b64encode C data) = Ret response /\
    json response = Ret reply /\
    error reply = None /\
    result reply = Some name /\
    out = [EvFileRead file_name;
           EvStoreMediaFile file_name (b64encode C data)].
Proof.
  unfold upload_audio_to_anki.
  rewrite try_except_run, bind_run. cbn [perform].
  destruct (file_read W h file_name) as [data|e].
  2:{ rewrite bind_run. cbn [emit ret]. discriminate. }
  rewrite bind_run. cbn [perform].
  destruct (post_storeMediaFile W _ _ _) as [response|e] eqn:Hpost.
  2:{ rewrite bind_run. cbn [emit ret]. discriminate. }
  rewrite bind_run. cbn [lift_res].
  destruct (json response) as [reply|e] eqn:Hjson.
  2:{ rewrite bind_run. cbn [emit ret]. discriminate. }
  destruct (error reply) as [err|] eqn:Herr.
  { rewrite bind_run. cbn [emit ret]. discriminate. }
  cbn [ret]. intros [= Hres <-].
  exists data, response, reply. repeat split; assumption.
Qed.

(** X8. [download_audio] returns [True] only after the request returned a
    response whose status is not 4xx or 5xx and the file was written with
    the content of that response; nothing else is emitted. *)
Theorem download_True_means_written
    (url file_name : pystr) (h out : trace) :
  download_audio W url file_name h = (Ret true, out) ->
  exists response,
    session_get W h {| connect := 3; backoff_factor := 1 # 2 |} url
      = Ret response /\
    ~ (400 <= status_code response < 600) /\
    file_write W
      (h ++ [EvDownloadGet {| connect := 3; backoff_factor := 1 # 2 |} url])
      file_name (content response) = Ret tt /\
    out = [EvDownloadGet {| connect := 3; backoff_factor := 1 # 2 |} url;
           EvFileWrite file_name (content response)].
Proof. apply download_audio_True_inv. Qed.

End Files.

(** ** What a run writes *)

(** Solves [emits P m] like [emits_tac], proving [P] of each event with
    [side]. *)
Ltac emits_by side :=
  repeat first
    [ apply emits_ret | apply emits_raise | apply emits_lift_res
    | apply emits_raise_for_status
    | apply emits_perform; [side]
    | apply emits_emit; [side]
    | apply emits_bind; [|intros ?]
    | apply emits_try_except; [|intros ?]
    | match goal with
      | |- emits _ (match ?x with _ => _ end) => destruct x
      | |- emits _ (if ?x then _ else _) => destruct x
      end ].

Lemma sound_directive_not_blank (name : pystr) :
  not_blank (py "[sound:" ++ name ++ py "]").
Proof. exists 91%N. split; [apply list_elem_of_here | reflexivity]. Qed.

Lemma Forall_updates (P : event -> Prop) (t : trace) :
  (forall ev, is_update ev = false -> P ev) ->
  Forall P (updates t) -> Forall P t.
Proof.
  intros Hother. unfold updates.
  induction t as [|ev t IH]; simpl; [constructor|].
  destruct (is_update ev) eqn:Hev.
  - intros Hall. inversion Hall; subst. constructor; auto.
  - intros Hall. constructor; auto.
Qed.

Section Writes.

Variable W : World.
Variable C : Config.

(** [add_word_info_to_note] sends at most one request, for the note and
    the file name it is given. *)
Lemma add_word_info_to_note_updates (note_id : pyval) (name : pystr)
    (d x : pyval) (h : trace) (r : res unit) (out : trace) :
  add_word_info_to_note W note_id name d x h = (r, out) ->
  updates out = [] \/
  exists dt xt,
    updates out =
    [EvUpdateNoteFields note_id (py "[sound:" ++ name ++ py "]") dt xt].
Proof.
  unfold add_word_info_to_note.
  destruct (negb (isinstance_int note_id)).
  { intros [= _ <-]. left. reflexivity. }
  destruct (_ && _).
  { intros [= _ <-]. left. reflexivity. }
  destruct (_ && _).
  { intros [= _ <-]. left. reflexivity. }
  cbv zeta. rewrite bind_run. cbn [perform].
  destruct (post_updateNoteFields W h _ _ _ _) as [response|e].
  2:{ intros [= _ <-]. right. eauto. }
  rewrite bind_run. cbn [lift_res].
  destruct (json response) as [reply|e].
  2:{ intros [= _ <-]. right. eauto. }
  destruct (error reply); intros [= _ <-]; right; eauto.
Qed.

(** The [updateNoteFields] requests of one pass of the loop body: none, or
    one for the note itself, blank so far, with the playback directive of
    a non-empty name. *)
Lemma process_note_updates (n : Note) (pw : gset pystr) (h : trace)
    (r : res (gset pystr)) (out : trace) :
  process_note W C n pw h = (r, out) ->
  updates out = [] \/
  (audio_blank n /\
   exists name dt xt,
     name <> [] /\
     updates out =
     [EvUpdateNoteFields (note n) (py "[sound:" ++ name ++ py "]") dt xt]).
Proof.
  destruct (fields n !! py "Word") as [w|] eqn:Hw.
  2:{ unfold process_note. rewrite Hw, bind_run.
      intros [= _ <-]. left. reflexivity. }
  destruct (str_truthy (strip (default [] (fields n !! py "Audio"))))
    eqn:Hb.
  { unfold process_note. rewrite Hw, bind_ret, Hb.
    intros [= _ <-]. left. reflexivity. }
  apply audio_test_blank in Hb.
  destruct (decide (w ∈ pw)) as [Hin|Hin].
  { rewrite (process_note_duplicate W C n pw h w Hw Hb Hin).
    intros [= _ <-]. left. reflexivity. }
  rewrite (process_note_fresh W C n pw h w Hw Hb Hin).
  destruct (get_cambridge_word_info W C w (LANGUAGE C) _)
    as [[[info|]|e] o_l] eqn:Hl.
  2,3: intros [= _ <-]; left;
       apply (updates_not_update (making_cards w :: o_l));
       (constructor; [reflexivity|]);
       exact (emits_run _ _ _ _ _
                (get_cambridge_word_info_no_update W C w (LANGUAGE C)) Hl).
  pose proof (emits_run _ _ _ _ _
                (get_cambridge_word_info_no_update W C w (LANGUAGE C)) Hl)
    as Hnl.
  set (h1 := (h ++ [making_cards w]) ++ o_l) in *.
  assert (forall o, updates (making_cards w :: o_l ++ o) = updates o)
    as Hskip.
  { intros o. change (making_cards w :: o_l ++ o)
      with ((making_cards w :: o_l) ++ o).
    rewrite updates_app, (updates_not_update (making_cards w :: o_l));
      [reflexivity|].
    constructor; [reflexivity | exact Hnl]. }
  assert ((exists u tag o_f,
              source_yields W C w h1 info u tag o_f /\
              Forall not_update o_f) \/
          exists e o_f, after_lookup W C n w info pw h1 = (Raise e, o_f) /\
                        Forall not_update o_f)
    as [(u & tag & o_f & Hsrc & Hnf) | (e & o_f & Hraise & Hnf)].
  { unfold source_yields.
    destruct (truthy (audio_url info)) eqn:Hu.
    - left. exists (audio_url info), (py "cambridge"), [].
      repeat split. constructor.
    - destruct (get_vocalware_tts_url W C w h1) as [[u|e] o_f] eqn:Hf.
      + left. exists u, (py "vocalware"), o_f. repeat split.
        exact (emits_run _ _ _ _ _
                 (get_vocalware_tts_url_no_update W C w) Hf).
      + right. exists e, o_f. split.
        * apply after_lookup_fallback_raises; assumption.
        * exact (emits_run _ _ _ _ _
                   (get_vocalware_tts_url_no_update W C w) Hf). }
  2:{ rewrite Hraise. intros [= _ <-]. left.
      rewrite Hskip. apply updates_not_update, Hnf. }
  rewrite (after_lookup_run W C n w info pw h1 u tag o_f Hsrc).
  destruct (store_audio W C n w info u tag pw (h1 ++ o_f)) as [r' o_s]
    eqn:Hstore.
  intros [= _ <-]. rewrite Hskip, updates_app, (updates_not_update o_f Hnf).
  cbn [app]. clear Hskip.
  destruct (truthy u) eqn:Hu.
  2:{ rewrite store_audio_no_url in Hstore by exact Hu.
      injection Hstore as _ <-. left. reflexivity. }
  rewrite store_audio_run in Hstore by exact Hu. cbv zeta in Hstore.
  destruct (download_audio W _ _ _) as [[[|]|e] o_d] eqn:Hd.
  2,3: injection Hstore as _ <-; left;
       apply (updates_not_update (EvUuid4 :: o_d));
       (constructor; [reflexivity|]);
       exact (emits_run _ _ _ _ _ (download_audio_no_update W _ _) Hd).
  pose proof (emits_run _ _ _ _ _ (download_audio_no_update W _ _) Hd)
    as Hnd.
  destruct (upload_audio_to_anki W C _ _) as [[v|e] o_u] eqn:Hup.
  2:{ injection Hstore as _ <-. left.
      apply (updates_not_update (EvUuid4 :: o_d ++ o_u)).
      constructor; [reflexivity|]. apply Forall_app. split; [exact Hnd|].
      exact (emits_run _ _ _ _ _ (upload_audio_to_anki_no_update W C _) Hup). }
  pose proof (emits_run _ _ _ _ _ (upload_audio_to_anki_no_update W C _) Hup)
    as Hnu.
  assert (forall o, updates (EvUuid4 :: o_d ++ o_u ++ o) = updates o)
    as Hskip.
  { intros o. change (EvUuid4 :: o_d ++ o_u ++ o)
      with ((EvUuid4 :: o_d) ++ o_u ++ o).
    rewrite !updates_app, (updates_not_update (EvUuid4 :: o_d)),
      (updates_not_update o_u Hnu); [reflexivity|].
    constructor; [reflexivity | exact Hnd]. }
  destruct (truthy v) eqn:Hv.
  2:{ injection Hstore as _ <-. left. rewrite Hskip. reflexivity. }
  destruct v as [name|]; [|discriminate].
  destruct (add_word_info_to_note W _ _ _ _ _) as [ra o_w] eqn:Hadd.
  assert (updates o_s = updates o_w) as ->.
  { destruct ra as [[]|e]; injection Hstore as _ <-; apply Hskip. }
  apply add_word_info_to_note_updates in Hadd as [Hnone | (dt & xt & Hone)].
  - left. exact Hnone.
  - right. split; [exact Hb|]. exists name, dt, xt. split; [|exact Hone].
    destruct name; [discriminate | congruence].
Qed.

End Writes.

Lemma writes_blank_note_weaken (l l' : list Note) (ev : event) :
  (forall n, n ∈ l -> n ∈ l') ->
  writes_blank_note l ev -> writes_blank_note l' ev.
Proof.
  intros Hsub. destruct ev; simpl; try exact id.
  intros (n & name & Hn & H). exists n, name. split; [auto | exact H].
Qed.

Section Runs.

Variable W : World.
Variable C : Config.

Lemma process_note_writes (n : Note) (pw : gset pystr) (h : trace)
    (r : res (gset pystr)) (out : trace) :
  process_note W C n pw h = (r, out) -> Forall (writes_blank_note [n]) out.
Proof.
  intros Hrun. apply Forall_updates.
  { intros ev Hev. destruct ev; try exact I. discriminate. }
  apply process_note_updates in Hrun
    as [-> | (Hb & name & dt & xt & Hname & ->)]; [constructor|].
  constructor; [|constructor].
  exists n, name. split; [apply list_elem_of_here|]. auto.
Qed.

(** X11. Whatever the world answers and however the loop ends, every
    [updateNoteFields] request of the loop is for one of its notes whose
    [Audio] was blank, and sets [Audio] to a playback directive
    [[sound:name]] with a non-empty name, which is not blank: a note that
    has audio is never written, and a written note has audio. *)
Theorem loop_writes_only_blank_notes
    (notes : list Note) (pw : gset pystr) (h : trace)
    (r : res (gset pystr)) (out : trace) :
  for_each notes (process_note W C) pw h = (r, out) ->
  Forall (writes_blank_note notes) out /\
  forall note_id audio d x,
    EvUpdateNoteFields note_id audio d x ∈ out -> not_blank audio.
Proof.
  intros Hrun.
  assert (Forall (writes_blank_note notes) out) as Hall.
  { revert pw h r out Hrun.
    induction notes as [|n notes IH]; intros pw h r out.
    - intros [= _ <-]. constructor.
    - cbn [for_each]. rewrite bind_run.
      destruct (process_note W C n pw h) as [[pw1|e] o1] eqn:H1.
      + destruct (for_each notes _ pw1 _) as [r2 o2] eqn:H2.
        intros [= _ <-]. apply Forall_app. split.
        * eapply Forall_impl; [exact (process_note_writes _ _ _ _ _ H1)|].
          intros ev. apply writes_blank_note_weaken.
          intros m Hm. apply list_elem_of_singleton in Hm as ->.
          apply list_elem_of_here.
        * eapply Forall_impl; [exact (IH _ _ _ _ H2)|].
          intros ev. apply writes_blank_note_weaken.
          intros m Hm. apply list_elem_of_further. exact Hm.
      + intros [= _ <-].
        eapply Forall_impl; [exact (process_note_writes _ _ _ _ _ H1)|].
        intros ev. apply writes_blank_note_weaken.
        intros m Hm. apply list_elem_of_singleton in Hm as ->.
        apply list_elem_of_here. }
  split; [exact Hall|].
  intros note_id audio d x Hin.
  rewrite Forall_forall in Hall. specialize (Hall _ Hin).
  destruct Hall as (n & name & _ & _ & _ & _ & ->).
  apply sound_directive_not_blank.
Qed.

Lemma process_note_returns_count (n : Note) (pw pw' : gset pystr)
    (h out : trace) :
  process_note W C n pw h = (Ret pw', out) ->
  (length (updates out) + size pw <= size pw')%nat.
Proof.
  intros Hrun. pose proof Hrun as Hinv.
  apply process_note_returns_inv in Hinv
    as [[-> ->] | (w & pre & f & name & info & o_u & o_w & _ & _ & Hnew & ->
                   & -> & Hpre & Hou & _ & _ & Hadd)].
  - simpl. lia.
  - rewrite !updates_app, Hpre, Hou. cbn [app].
    rewrite size_union by set_solver. rewrite size_singleton.
    apply add_word_info_to_note_updates in Hadd as [-> | (dt & xt & ->)];
      simpl; lia.
Qed.

(** X12. In a loop that returns, the [updateNoteFields] requests are at
    most as many as the words added to the set of processed words: a word
    is written at most once in a run. *)
Theorem loop_writes_each_word_once
    (notes : list Note) (pw pw' : gset pystr) (h out : trace) :
  for_each notes (process_note W C) pw h = (Ret pw', out) ->
  (length (updates out) + size pw <= size pw')%nat.
Proof.
  revert pw h out. induction notes as [|n notes IH]; intros pw h out.
  - intros [= <- <-]. simpl. lia.
  - cbn [for_each]. rewrite bind_run.
    destruct (process_note W C n pw h) as [[pw1|e] o1] eqn:H1;
      [|discriminate].
    destruct (for_each notes _ pw1 _) as [[pw2|e] o2] eqn:H2;
      [|discriminate].
    intros [= <- <-]. rewrite updates_app, length_app.
    apply process_note_returns_count in H1. apply IH in H2. lia.
Qed.

(** X13. In a loop that returns, the set of processed words keeps what it
    held, and each word it gained is the [Word] of a note of the loop
    whose [Audio] was blank. *)
Theorem loop_processes_words_of_blank_notes
    (notes : list Note) (pw pw' : gset pystr) (h out : trace) :
  for_each notes (process_note W C) pw h = (Ret pw', out) ->
  pw ⊆ pw' /\
  forall w, w ∈ pw' -> w ∉ pw ->
    exists n, n ∈ notes /\ fields n !! py "Word" = Some w /\ audio_blank n.
Proof.
  intros Hrun. split; [exact (for_each_monotone W C _ _ _ _ _ Hrun)|].
  revert pw h out Hrun. induction notes as [|n notes IH]; intros pw h out.
  - intros [= <- _] w Hin Hout. contradiction.
  - cbn [for_each]. rewrite bind_run.
    destruct (process_note W C n pw h) as [[pw1|e] o1] eqn:H1;
      [|discriminate].
    destruct (for_each notes _ pw1 _) as [[pw2|e] o2] eqn:H2;
      [|discriminate].
    intros [= <- _] w Hin Hout.
    destruct (decide (w ∈ pw1)) as [Hin1 | Hout1].
    + apply process_note_returns_inv in H1
        as [[-> _] | (w' & ? & ? & ? & ? & ? & ? & Hw' & Hb & _ & -> & _)];
        [contradiction|].
      apply elem_of_union in Hin1 as [? | Hw%elem_of_singleton];
        [contradiction|].
      subst w'. exists n. split; [apply list_elem_of_here | auto].
    + destruct (IH _ _ _ H2 w Hin Hout1) as (m & Hm & Hrest).
      exists m. split; [apply list_elem_of_further, Hm | exact Hrest].
Qed.

End Runs.

(** ** The shape of one pass of the loop body *)

Section Shape.

Variable W : World.
Variable C : Config.

(** One pass of the loop body either only logs (the note is skipped or
    has no [Word]), or stops at the lookup, or stops at a VocalWare
    request that raises, or runs [store_audio] on the chosen source. *)
Lemma process_note_cases (n : Note) (pw : gset pystr) (h : trace)
    (r : res (gset pystr)) (out : trace) :
  process_note W C n pw h = (r, out) ->
  Forall (fun ev => is_output ev = true) out \/
  exists w, fields n !! py "Word" = Some w /\ audio_blank n /\ (w ∉ pw) /\
    let h1 := h ++ [making_cards w] in
    ((exists rl o_l,
         get_cambridge_word_info W C w (LANGUAGE C) h1 = (rl, o_l) /\
         (forall info, rl <> Ret (Some info)) /\
         out = making_cards w :: o_l) \/
     exists info o_l,
       get_cambridge_word_info W C w (LANGUAGE C) h1
         = (Ret (Some info), o_l) /\
       ((exists e o_f,
            truthy (audio_url info) = false /\
            get_vocalware_tts_url W C w (h1 ++ o_l) = (Raise e, o_f) /\
            r = Raise e /\
            out = making_cards w :: o_l ++ o_f) \/
        exists u tag o_f o_s,
          source_yields W C w (h1 ++ o_l) info u tag o_f /\
          store_audio W C n w info u tag pw ((h1 ++ o_l) ++ o_f)
            = (r, o_s) /\
          out = making_cards w :: o_l ++ o_f ++ o_s)).
Proof.
  destruct (fields n !! py "Word") as [w|] eqn:Hw.
  2:{ unfold process_note. rewrite Hw, bind_run.
      intros [= _ <-]. left. constructor. }
  destruct (str_truthy (strip (default [] (fields n !! py "Audio"))))
    eqn:Hb.
  { unfold process_note. rewrite Hw, bind_ret, Hb.
    intros [= _ <-]. left. repeat constructor. }
  apply audio_test_blank in Hb.
  destruct (decide (w ∈ pw)) as [Hin|Hin].
  { rewrite (process_note_duplicate W C n pw h w Hw Hb Hin).
    intros [= _ <-]. left. repeat constructor. }
  rewrite (process_note_fresh W C n pw h w Hw Hb Hin).
  intros Hrun. right. exists w.
  split; [reflexivity|]. split; [exact Hb|]. split; [exact Hin|].
  cbv zeta.
  destruct (get_cambridge_word_info W C w (LANGUAGE C) _)
    as [[[info|]|e] o_l] eqn:Hl.
  2:{ left. exists (Ret None), o_l. injection Hrun as _ <-.
      repeat split. intros info. discriminate. }
  2:{ left. exists (Raise e), o_l. injection Hrun as _ <-.
      repeat split. intros info. discriminate. }
  right. exists info, o_l. split; [reflexivity|].
  destruct (truthy (audio_url info)) eqn:Hu.
  - right. exists (audio_url info), (py "cambridge"), [].
    assert (source_yields W C w ((h ++ [making_cards w]) ++ o_l) info
              (audio_url info) (py "cambridge") []) as Hsrc.
    { unfold source_yields. rewrite Hu. repeat split. }
    rewrite (after_lookup_run W C n w info pw _ _ _ _ Hsrc) in Hrun.
    destruct (store_audio W C n w info _ _ pw _) as [r' o_s] eqn:Hs.
    injection Hrun as <- <-. exists o_s. repeat split; assumption.
  - destruct (get_vocalware_tts_url W C w _) as [[u|e] o_f] eqn:Hf.
    + right. exists u, (py "vocalware"), o_f.
      assert (source_yields W C w ((h ++ [making_cards w]) ++ o_l) info
                u (py "vocalware") o_f) as Hsrc.
      { unfold source_yields. rewrite Hu. split; [exact Hf | reflexivity]. }
      rewrite (after_lookup_run W C n w info pw _ _ _ _ Hsrc) in Hrun.
      destruct (store_audio W C n w info _ _ pw _) as [r' o_s] eqn:Hs.
      injection Hrun as <- <-. exists o_s. repeat split; assumption.
    + left. exists e, o_f.
      rewrite (after_lookup_fallback_raises W C n w info pw _ e o_f Hu Hf)
        in Hrun.
      injection Hrun as <- <-. repeat split.
Qed.

End Shape.

(** ** The temporary file *)

Section TempFile.

Variable W : World.
Variable C : Config.

Lemma lookup_reads_no_file word language :
  emits not_file_read (get_cambridge_word_info W C word language).
Proof. unfold get_cambridge_word_info. emits_by ltac:(exact I). Qed.

Lemma fallback_reads_no_file word :
  emits not_file_read (get_vocalware_tts_url W C word).
Proof. unfold get_vocalware_tts_url. emits_by ltac:(exact I). Qed.

Lemma download_reads_no_file url file_name :
  emits not_file_read (download_audio W url file_name).
Proof. unfold download_audio. emits_by ltac:(exact I). Qed.

Lemma update_reads_no_file note_id name d x :
  emits not_file_read (add_word_info_to_note W note_id name d x).
Proof. unfold add_word_info_to_note. emits_by ltac:(exact I). Qed.

(** The upload starts by reading its file, and reads nothing else. *)
Lemma upload_audio_to_anki_reads (file_name : pystr) (h : trace) :
  exists r rest,
    upload_audio_to_anki W C file_name h = (r, EvFileRead file_name :: rest)
    /\ Forall not_file_read rest.
Proof.
  unfold upload_audio_to_anki.
  rewrite try_except_run, bind_run. cbn [perform].
  destruct (file_read W h file_name) as [data|e].
  2:{ rewrite bind_run. cbn [emit ret]. eexists _, _.
      split; [reflexivity|]. repeat constructor. }
  rewrite bind_run. cbn [perform].
  destruct (post_storeMediaFile W _ _ _) as [response|e].
  2:{ rewrite bind_run. cbn [emit ret]. eexists _, _.
      split; [reflexivity|]. repeat constructor. }
  rewrite bind_run. cbn [lift_res].
  destruct (json response) as [reply|e].
  2:{ rewrite bind_run. cbn [emit ret]. eexists _, _.
      split; [reflexivity|]. repeat constructor. }
  destruct (error reply) as [err|].
  - rewrite bind_run. cbn [emit ret]. eexists _, _.
    split; [reflexivity|]. repeat constructor.
  - cbn [ret]. eexists _, _. split; [reflexivity|]. repeat constructor.
Qed.

Lemma not_file_read_elem (t : trace) (f : pystr) :
  Forall not_file_read t -> EvFileRead f ∉ t.
Proof.
  intros Hall Hin. rewrite Forall_forall in Hall. exact (Hall _ Hin).
Qed.

Lemma store_audio_reads_written (n : Note) (w : pystr) (info : WordInfo)
    (u : option pystr) (tag : pystr) (pw : gset pystr) (h : trace)
    (r : res (gset pystr)) (out : trace) (f : pystr) :
  store_audio W C n w info u tag pw h = (r, out) ->
  EvFileRead f ∈ out ->
  f = temp_name tag (uuid4 W h) /\
  exists c pre post,
    Forall not_file_read pre /\
    out = pre ++ EvFileWrite f c :: EvFileRead f :: post.
Proof.
  destruct (truthy u) eqn:Hu.
  2:{ rewrite store_audio_no_url by exact Hu. intros [= _ <-] Hin.
      apply list_elem_of_singleton in Hin. discriminate. }
  rewrite store_audio_run by exact Hu. cbv zeta.
  set (f0 := temp_name tag (uuid4 W h)).
  destruct (download_audio W _ f0 _) as [[[|]|e] o_d] eqn:Hd.
  2,3: intros [= _ <-] Hin; exfalso;
       apply elem_of_cons in Hin as [Hin | Hin]; [discriminate|];
       revert Hin; apply not_file_read_elem;
       exact (emits_run _ _ _ _ _ (download_reads_no_file _ _) Hd).
  apply download_audio_True_inv in Hd as (response & _ & _ & _ & ->).
  destruct (upload_audio_to_anki_reads f0
              ((h ++ [EvUuid4])
                 ++ [EvDownloadGet {| connect := 3; backoff_factor := 1 # 2 |}
                       (default [] u);
                     EvFileWrite f0 (content response)]))
    as (r_u & rest & Hup & Hrest).
  rewrite Hup.
  assert (forall tail,
             Forall not_file_read tail ->
             EvFileRead f
               ∈ EvUuid4
                 :: [EvDownloadGet {| connect := 3; backoff_factor := 1 # 2 |}
                       (default [] u);
                     EvFileWrite f0 (content response)]
                    ++ (EvFileRead f0 :: rest) ++ tail ->
             f = f0) as Hone.
  { intros tail Htail Hin.
    apply elem_of_cons in Hin as [Hin | Hin]; [discriminate|].
    apply elem_of_cons in Hin as [Hin | Hin]; [discriminate|].
    apply elem_of_cons in Hin as [Hin | Hin]; [discriminate|].
    apply elem_of_cons in Hin as [Hin | Hin]; [congruence|].
    apply elem_of_app in Hin as [Hin | Hin]; exfalso; revert Hin;
      apply not_file_read_elem; assumption. }
  assert (forall tail out',
             out' = EvUuid4
                    :: [EvDownloadGet
                          {| connect := 3; backoff_factor := 1 # 2 |}
                          (default [] u);
                        EvFileWrite f0 (content response)]
                       ++ (EvFileRead f0 :: rest) ++ tail ->
             Forall not_file_read tail ->
             EvFileRead f ∈ out' ->
             f = f0 /\
             exists c pre post,
               Forall not_file_read pre /\
               out' = pre ++ EvFileWrite f c :: EvFileRead f :: post)
    as Hshape.
  { intros tail out' -> Htail Hin.
    pose proof (Hone tail Htail Hin) as ->. split; [reflexivity|].
    exists (content response),
      [EvUuid4;
       EvDownloadGet {| connect := 3; backoff_factor := 1 # 2 |}
         (default [] u)],
      (rest ++ tail).
    split; [repeat constructor | reflexivity]. }
  destruct r_u as [v|e].
  - destruct (truthy v).
    + destruct (add_word_info_to_note W _ _ _ _ _) as [[[]|e] o_w] eqn:Hadd;
        intros [= _ <-]; apply (Hshape o_w); try reflexivity;
        exact (emits_run _ _ _ _ _ (update_reads_no_file _ _ _ _) Hadd).
    + intros [= _ <-].
      apply (Hshape [EvEmit Stdout (MsgUploadFailed w)]);
        [reflexivity | repeat constructor].
  - intros [= _ <-] Hin.
    apply (Hshape []);
      [rewrite app_nil_r; reflexivity | constructor | exact Hin].
Qed.

(** X14. Whatever the world answers, the file a pass of the loop body
    reads for the upload is the temporary file the download has just
    written: its name is [cambridge-<uuid>.mp3] or [vocalware-<uuid>.mp3],
    and the write of that file comes right before the read, with no other
    read before it. *)
Theorem upload_reads_the_downloaded_file
    (n : Note) (pw : gset pystr) (h : trace) (r : res (gset pystr))
    (out : trace) (f : pystr) :
  process_note W C n pw h = (r, out) ->
  EvFileRead f ∈ out ->
  exists tag uuid c pre post,
    (tag = py "cambridge" \/ tag = py "vocalware") /\
    f = tag ++ py "-" ++ uuid ++ py ".mp3" /\
    Forall not_file_read pre /\
    out = pre ++ EvFileWrite f c :: EvFileRead f :: post.
Proof.
  intros Hrun Hin.
  apply process_note_cases in Hrun as [Hlog | (w & _ & _ & _ & Hrun)].
  { exfalso. rewrite Forall_forall in Hlog. specialize (Hlog _ Hin).
    discriminate. }
  cbv zeta in Hrun.
  destruct Hrun as [(rl & o_l & Hl & _ & ->) | (info & o_l & Hl & Hrun)].
  { exfalso. apply elem_of_cons in Hin as [Hin | Hin]; [discriminate|].
    revert Hin. apply not_file_read_elem.
    exact (emits_run _ _ _ _ _ (lookup_reads_no_file _ _) Hl). }
  pose proof (emits_run _ _ _ _ _ (lookup_reads_no_file _ _) Hl) as Hnl.
  destruct Hrun as [(e & o_f & _ & Hf & _ & ->)
                   | (u & tag & o_f & o_s & Hsrc & Hstore & ->)].
  { exfalso. apply elem_of_cons in Hin as [Hin | Hin]; [discriminate|].
    apply elem_of_app in Hin as [Hin | Hin]; revert Hin;
      apply not_file_read_elem; [exact Hnl|].
    exact (emits_run _ _ _ _ _ (fallback_reads_no_file _) Hf). }
  assert (Forall not_file_read o_f /\
          (tag = py "cambridge" \/ tag = py "vocalware")) as [Hnf Htag].
  { unfold source_yields in Hsrc.
    destruct (truthy (audio_url info)).
    - destruct Hsrc as (_ & -> & ->). split; [constructor | left; reflexivity].
    - destruct Hsrc as (Hf & ->). split; [|right; reflexivity].
      exact (emits_run _ _ _ _ _ (fallback_reads_no_file _) Hf). }
  assert (EvFileRead f ∈ o_s) as Hin_s.
  { apply elem_of_cons in Hin as [Hin | Hin]; [discriminate|].
    apply elem_of_app in Hin as [Hin | Hin];
      [exfalso; revert Hin; apply not_file_read_elem; exact Hnl|].
    apply elem_of_app in Hin as [Hin | Hin];
      [exfalso; revert Hin; apply not_file_read_elem; exact Hnf|].
    exact Hin. }
  destruct (store_audio_reads_written _ _ _ _ _ _ _ _ _ _ Hstore Hin_s)
    as (Hname & c & pre & post & Hpre & ->).
  exists tag, (uuid4 W (((h ++ [making_cards w]) ++ o_l) ++ o_f)), c,
    (making_cards w :: o_l ++ o_f ++ pre), post.
  split; [exact Htag|]. split; [exact Hname|]. split.
  - constructor; [exact I|].
    apply Forall_app; split; [exact Hnl|].
    apply Forall_app; split; assumption.
  - rewrite <- !app_comm_cons, <- !app_assoc. reflexivity.
Qed.

End TempFile.

(** ** The source of the audio *)

Section Source.

Variable W : World.
Variable C : Config.

Lemma store_audio_asks_no_vocalware (n : Note) (w : pystr)
    (info : WordInfo) (u : option pystr) (tag : pystr) (pw : gset pystr) :
  emits not_vocalware (store_audio W C n w info u tag pw).
Proof.
  unfold store_audio, download_audio, upload_audio_to_anki,
    add_word_info_to_note.
  emits_by ltac:(exact I).
Qed.

Lemma download_audio_requests (url file_name : pystr) (h : trace) :
  exists r rest,
    download_audio W url file_name h =
    (r, EvDownloadGet {| connect := 3; backoff_factor := 1 # 2 |} url :: rest).
Proof.
  unfold download_audio.
  rewrite try_except_run, bind_run. cbn [perform].
  destruct (session_get W h _ url) as [response|e].
  - rewrite bind_run. unfold raise_for_status.
    destruct (_ && _).
    + cbn [raise is_RequestException]. rewrite bind_run.
      cbn [emit ret]. eauto.
    + cbn [ret]. rewrite bind_run. cbn [perform].
      destruct (file_write W _ _ _) as [[]|e].
      * cbn [ret]. eauto.
      * destruct (is_RequestException e);
          [rewrite bind_run; cbn [emit ret]|]; eauto.
  - destruct (is_RequestException e);
      [rewrite bind_run; cbn [emit ret]|]; eauto.
Qed.

(** X15. When the page of the word has an MPEG source with a [src], the
    loop body downloads that audio, at the address of the dictionary's
    host followed by [src], and sends no request to VocalWare. *)
Theorem dictionary_audio_is_preferred
    (n : Note) (w : pystr) (pw : gset pystr) (h : trace) (loc : Locale)
    (response : Response unit) (t : Tag) (src : pystr) :
  fields n !! py "Word" = Some w ->
  audio_blank n ->
  w ∉ pw ->
  language_dict !! LANGUAGE C = Some loc ->
  get_cambridge W (h ++ [making_cards w]) (cambridge_url loc w)
    = Ret response ->
  ~ (400 <= status_code response < 600) ->
  find (html_parser C (text response)) (py "source")
    (py "type", py "audio/mpeg") = Some t ->
  attrs t !! py "src" = Some src ->
  exists r rest,
    process_note W C n pw h =
    (r,
     making_cards w
       :: EvCambridgeGet (cambridge_url loc w)
       :: EvUuid4
       :: EvDownloadGet {| connect := 3; backoff_factor := 1 # 2 |}
            (py "https://dictionary.cambridge.org" ++ src)
       :: rest) /\
    Forall not_vocalware rest.
Proof.
  intros Hw Hb Hin Hloc Hget Hstatus Htag Hsrc.
  rewrite (process_note_fresh W C n pw h w Hw Hb Hin).
  rewrite (get_cambridge_word_info_fetched W C w (LANGUAGE C) _ loc response
             Hloc Hget Hstatus).
  cbv zeta. rewrite Htag. cbv beta iota.
  change (attrs t !! py "src" = Some src) in Hsrc.
  match goal with
  | |- context [match ?x with Some _ => Some _ | None => None end] =>
      change x with (attrs t !! py "src")
  end.
  rewrite Hsrc. cbv beta iota.
  match goal with
  | |- context [after_lookup W C n w ?i pw ?hh] =>
      set (info := i); set (h2 := hh)
  end.
  assert (source_yields W C w h2 info
            (Some (py "https://dictionary.cambridge.org" ++ src))
            (py "cambridge") []) as Hyields.
  { unfold source_yields. repeat split. }
  rewrite (after_lookup_run W C n w info pw h2 _ _ _ Hyields).
  destruct (store_audio W C n w info _ (py "cambridge") pw (h2 ++ []))
    as [r o_s] eqn:Hstore.
  pose proof (emits_run _ _ _ _ _
                (store_audio_asks_no_vocalware n w info _ _ pw) Hstore)
    as Hquiet.
  rewrite store_audio_run in Hstore by reflexivity. cbv zeta in Hstore.
  match type of Hstore with
  | context [download_audio W ?u ?f ?hh] =>
      destruct (download_audio_requests u f hh) as (r_d & rest_d & Hd)
  end.
  rewrite Hd in Hstore.
  assert (exists rest, o_s = EvUuid4
            :: EvDownloadGet {| connect := 3; backoff_factor := 1 # 2 |}
                 (py "https://dictionary.cambridge.org" ++ src) :: rest)
    as (rest & ->).
  { destruct r_d as [[|]|e].
    - destruct (upload_audio_to_anki W C _ _) as [[v|e] o_u].
      + destruct (truthy v).
        * destruct (add_word_info_to_note W _ _ _ _ _) as [[[]|e] o_w];
            injection Hstore as _ <-; eauto.
        * injection Hstore as _ <-. eauto.
      + injection Hstore as _ <-. eauto.
    - injection Hstore as _ <-. eauto.
    - injection Hstore as _ <-. eauto. }
  exists r, rest. split; [reflexivity|].
  inversion Hquiet as [|? ? _ Hq1]; subst.
  inversion Hq1 as [|? ? _ Hq2]; subst. exact Hq2.
Qed.

Lemma missing_audio_is_blank (n : Note) :
  fields n !! py "Audio" = None -> audio_blank n.
Proof. intros Hnone v Hv. congruence. Qed.

(** X16. A note whose [Audio] field is missing, empty or white space
    only, and whose word is not processed yet, is worked on: in a
    supported locale the loop body logs it and asks the dictionary for
    the word. *)
Theorem blank_note_is_looked_up
    (n : Note) (w : pystr) (pw : gset pystr) (h : trace) (loc : Locale) :
  fields n !! py "Word" = Some w ->
  audio_blank n ->
  w ∉ pw ->
  language_dict !! LANGUAGE C = Some loc ->
  exists r rest,
    process_note W C n pw h =
    (r, making_cards w :: EvCambridgeGet (cambridge_url loc w) :: rest).
Proof.
  intros Hw Hb Hin Hloc.
  rewrite (process_note_fresh W C n pw h w Hw Hb Hin).
  destruct (get_cambridge_word_info_requests W C w (LANGUAGE C) loc
              (h ++ [making_cards w]) Hloc) as (r & rest & ->).
  destruct r as [[info|]|e]; [|eauto..].
  destruct (after_lookup W C n w info pw _) as [r o]. eauto.
Qed.

End Source.

(** ** Notes and replies the script does not expect *)

Section Unexpected.

Variable W : World.
Variable C : Config.

(** X17. A note without [Word] field ends the run with [KeyError],
    whatever its [Audio]: the notes before it are processed, the note
    itself emits nothing, and the notes after it are left. *)
Theorem note_without_word_ends_run
    (before : list Note) (n : Note) (after : list Note)
    (pw pw1 : gset pystr) (h o1 : trace) :
  fields n !! py "Word" = None ->
  for_each before (process_note W C) pw h = (Ret pw1, o1) ->
  for_each (before ++ n :: after) (process_note W C) pw h
    = (Raise KeyError, o1).
Proof.
  intros Hw Hbefore. rewrite for_each_app, Hbefore.
  cbn [for_each]. rewrite bind_run.
  unfold process_note at 1. rewrite Hw, bind_run. cbn [raise].
  rewrite app_nil_r. reflexivity.
Qed.

(** X18. When the reply to the detail request has a null [result] (as
    when the store reports an error), [main] iterates over [None] and
    ends with [TypeError] after the two requests. *)
Theorem null_detail_result_raises_TypeError
    (deck_name : pystr) (h : trace) (cards : option (list Z)) (o1 : trace)
    (response : Response (AnkiReply (list Note)))
    (reply : AnkiReply (list Note)) :
  get_cards W deck_name h = (Ret cards, o1) ->
  post_cardsInfo W (h ++ o1) cards = Ret response ->
  json response = Ret reply ->
  result reply = None ->
  main W C deck_name h = (Raise TypeError, o1 ++ [EvCardsInfo cards]).
Proof.
  intros Hc Hpost Hjson Hres.
  unfold main. rewrite bind_run, Hc, bind_run.
  unfold get_notes. rewrite bind_run. cbn [perform]. rewrite Hpost.
  rewrite bind_run. cbn [lift_res]. rewrite Hjson. cbn [ret].
  rewrite Hres. cbn [raise]. rewrite !app_nil_r. reflexivity.
Qed.

(** X19. [get_cards] returns only when the listing request returned a
    response without error status whose body decodes, and then it returns
    the [result] of the reply as it is, without looking at its [error]:
    a null result is returned like a list. *)
Theorem get_cards_returns_the_result
    (deck_name : pystr) (h : trace) (cards : option (list Z))
    (out : trace) :
  get_cards W deck_name h = (Ret cards, out) ->
  exists response reply,
    post_findCards W h (py "deck:" ++ deck_name) = Ret response /\
    ~ (400 <= status_code response < 600) /\
    json response = Ret reply /\
    cards = result reply /\
    out = [EvFindCards (py "deck:" ++ deck_name)].
Proof.
  unfold get_cards. rewrite bind_run, try_except_run, bind_run. simpl.
  destruct (post_findCards W h _) as [response|e]; simpl.
  - unfold raise_for_status. rewrite !bind_run.
    destruct (_ && _) eqn:Hs; simpl.
    + intros [=].
    + destruct (json response) as [d|e] eqn:Hj; simpl.
      * intros [= <- <-]. exists response, d.
        split; [reflexivity|].
        split; [apply andb_false_iff in Hs; lia|].
        split; [exact Hj|]. split; reflexivity.
      * destruct (is_get_cards_caught e); simpl; intros [=].
  - destruct (is_get_cards_caught e); simpl; intros [=].
Qed.

(** X20. [add_word_info_to_note] sends nothing when an argument has the
    wrong type (a note identifier that is not an integer, a definition
    that is neither [None] nor a string, examples that are neither [None]
    nor a list): it prints one line and returns. *)
Theorem add_word_info_to_note_rejects_wrong_types
    (note_id : pyval) (name : pystr) (d x : pyval) (h : trace) :
  isinstance_int note_id = false \/
  (is_None d = false /\ isinstance_str d = false) \/
  (is_None x = false /\ isinstance_list x = false) ->
  exists msg,
    add_word_info_to_note W note_id name d x h
      = (Ret tt, [EvEmit Stdout msg]).
Proof.
  unfold add_word_info_to_note.
  intros [Hid | [[Hd1 Hd2] | [Hx1 Hx2]]].
  - rewrite Hid. simpl. eauto.
  - destruct (negb (isinstance_int note_id)); [simpl; eauto|].
    rewrite Hd1, Hd2. simpl. eauto.
  - destruct (negb (isinstance_int note_id)); [simpl; eauto|].
    destruct (_ && _); [simpl; eauto|].
    rewrite Hx1, Hx2. simpl. eauto.
Qed.

(** X21. With an integer identifier, a definition [None] and examples
    [None] or an empty list, [add_word_info_to_note] sends the request
    with an empty [Definition] and an empty [Extra information]; the
    elements of a list of examples are joined by [<br>] after [str]. *)
Theorem add_word_info_to_note_writes_absent_as_empty
    (note_id : pyval) (name : pystr) (d x : pyval) (h : trace) :
  isinstance_int note_id = true ->
  is_None d = true \/ isinstance_str d = true ->
  is_None x = true \/ isinstance_list x = true ->
  exists r rest,
    add_word_info_to_note W note_id name d x h =
    (r,
     EvUpdateNoteFields note_id (py "[sound:" ++ name ++ py "]")
       (as_str d) (join (py "<br>") (map py_str (as_list x))) :: rest) /\
    (is_None d = true -> as_str d = []) /\
    (is_None x = true \/ x = VList [] ->
     join (py "<br>") (map py_str (as_list x)) = []).
Proof.
  intros Hid Hd Hx.
  assert (negb (is_None d) && negb (isinstance_str d) = false) as Hd'.
  { destruct Hd as [-> | ->]; [reflexivity | apply andb_false_r]. }
  assert (negb (is_None x) && negb (isinstance_list x) = false) as Hx'.
  { destruct Hx as [-> | ->]; [reflexivity | apply andb_false_r]. }
  assert (is_None d = true -> as_str d = []) as Hdn.
  { destruct d as [[]|]; simpl; intros; congruence. }
  assert (is_None x = true \/ x = VList [] ->
          join (py "<br>") (map py_str (as_list x)) = []) as Hxn.
  { intros [Hn | ->]; [|reflexivity].
    destruct x as [[]|]; simpl in *; try discriminate; reflexivity. }
  unfold add_word_info_to_note. rewrite Hid, Hd', Hx'. cbn [negb].
  assert ((if is_None d then [] else as_str d) = as_str d) as ->.
  { destruct (is_None d) eqn:E; [symmetry; auto | reflexivity]. }
  assert ((if is_None x then []
           else join (py "<br>") (map py_str (as_list x)))
          = join (py "<br>") (map py_str (as_list x))) as ->.
  { destruct (is_None x) eqn:E; [symmetry; auto | reflexivity]. }
  rewrite bind_run. cbn [perform].
  destruct (post_updateNoteFields W h _ _ _ _) as [response|e].
  2:{ eexists _, _. split; [reflexivity | split; assumption]. }
  rewrite bind_run. cbn [lift_res].
  destruct (json response) as [reply|e].
  2:{ eexists _, _. split; [reflexivity | split; assumption]. }
  destruct (error reply);
    eexists _, _; (split; [reflexivity | split; assumption]).
Qed.

End Unexpected.

(** ** These properties at concrete decks *)

Section MoreConcrete.

Import Sample Cases MoreCases.

Lemma load_credentials_needs_three_values_witness :
  load_credentials environ_full = Ret (py "1234", py "5678", py "secret").
Proof.
  apply (proj1 (load_credentials_needs_three_values environ_full)).
  repeat split; try (vm_compute; reflexivity); discriminate.
Defined.

Lemma unsupported_language_sends_nothing_witness :
  get_cambridge_word_info (world_ok []) (config page_full) ubiquitous
    (py "fr") [] =
  (Ret None, [EvEmit LogError (MsgUnsupportedLanguage (py "fr"))]).
Proof.
  apply unsupported_language_sends_nothing; vm_compute; discriminate.
Defined.

Lemma accepted_languages_are_supported_witness :
  default_language ∈ language_choices /\
  exists loc r rest,
    language_dict !! py "cn" = Some loc /\
    get_cambridge_word_info (world_ok []) (config page_full) ubiquitous
      (py "cn") [] =
    (r, EvCambridgeGet (cambridge_url loc ubiquitous) :: rest).
Proof.
  apply accepted_languages_are_supported.
  apply list_elem_of_further, list_elem_of_here.
Defined.

Lemma examples_are_three_trimmed_texts_witness :
  let W := world_ok [] in
  let C := config page_examples in
  exists info out,
    get_cambridge_word_info W C ubiquitous (py "en") []
      = (Ret (Some info), out) /\
    (length (examples info) <= 3)%nat /\
    Forall trimmed (examples info) /\
    examples info =
      map (fun t => strip (tag_text t))
        (take 3 (find_all (html_parser C (text (http 200 (Ret tt))))
                   (py "div") (py "class", py "examp dexamp"))).
Proof.
  intros W C.
  apply (examples_are_three_trimmed_texts W C ubiquitous (py "en") [] en
           (http 200 (Ret tt))).
  - vm_compute. reflexivity.
  - reflexivity.
  - simpl. lia.
Defined.

Lemma requested_address_has_no_space_witness :
  let W := world_ok [] in
  let C := config page_full in
  exists r rest,
    get_cambridge_word_info W C (py "ice cream") (py "en") [] =
      (r, EvCambridgeGet (cambridge_url en (py "ice cream")) :: rest) /\
    (32%N ∉ cambridge_url en (py "ice cream")) /\
    cambridge_url en (py "ice cream") =
      py "https://dictionary.cambridge.org/dictionary/" ++ loc_uri en
        ++ py "/" ++ replace_char 32 (py "-") (py "ice cream").
Proof.
  intros W C.
  apply (requested_address_has_no_space W C (py "ice cream") (py "en") []
           en).
  vm_compute. reflexivity.
Defined.

Lemma lookup_http_error_aborts_batch_witness :
  let W := world_not_found [blank_card; second_card] in
  let C := config page_full in
  let log := [asked; EvEmit LogError (MsgCambridgeFailed HTTPError)] in
  get_cambridge_word_info W C ubiquitous (LANGUAGE C) ([] ++ [making])
    = (Ret None, log) /\
  for_each (blank_card :: [second_card]) (process_note W C) ∅ []
    = (Raise TypeError, making :: log).
Proof.
  intros W C log.
  apply (lookup_http_error_aborts_batch W C blank_card [second_card]
           ubiquitous ∅ [] en (http 404 (Ret tt))).
  - vm_compute. reflexivity.
  - exact blank_card_blank.
  - exact word_fresh.
  - vm_compute. reflexivity.
  - reflexivity.
  - simpl. lia.
Defined.


Lemma download_True_means_written_witness :
  let W := world_ok [] in
  exists response,
    session_get W [] retry audio_address = Ret response /\
    ~ (400 <= status_code response < 600) /\
    file_write W ([] ++ [EvDownloadGet retry audio_address]) cambridge_file
      (content response) = Ret tt /\
    downloaded audio_address cambridge_file =
      [EvDownloadGet retry audio_address;
       EvFileWrite cambridge_file (content response)].
Proof.
  intros W.
  apply (download_True_means_written W audio_address cambridge_file []
           (downloaded audio_address cambridge_file)).
  vm_compute. reflexivity.
Defined.

Lemma download_write_error_propagates_witness :
  let W := world_disk_full [] in
  download_audio W audio_address cambridge_file [] =
  (Raise OSError,
   [EvDownloadGet retry audio_address; EvFileWrite cambridge_file []]).
Proof.
  intros W.
  apply (download_write_error_propagates W audio_address cambridge_file []
           (http 200 (Ret tt)) OSError).
  - reflexivity.
  - simpl. lia.
  - reflexivity.
  - reflexivity.
Defined.

Lemma upload_name_comes_from_store_witness :
  let W := world_ok [] in
  let C := config page_full in
  exists data response reply,
    file_read W [] cambridge_file = Ret data /\
    post_storeMediaFile W ([] ++ [EvFileRead cambridge_file]) cambridge_file
      (b64encode C data) = Ret response /\
    json response = Ret reply /\
    error reply = None /\
    result reply = Some cambridge_file /\
    uploaded cambridge_file =
      [EvFileRead cambridge_file;
       EvStoreMediaFile cambridge_file (b64encode C data)].
Proof.
  intros W C.
  apply (upload_name_comes_from_store W C cambridge_file []
           (uploaded cambridge_file) cambridge_file).
  vm_compute. reflexivity.
Defined.

Lemma two_cards_loop :
  for_each [blank_card; other_card]
    (process_note (world_ok [blank_card; other_card]) (config page_full))
    ∅ [] = (Ret (∅ ∪ {[ ubiquitous ]}), two_cards_run).
Proof. vm_compute. reflexivity. Qed.

Lemma loop_writes_only_blank_notes_witness :
  Forall (writes_blank_note [blank_card; other_card]) two_cards_run /\
  forall note_id audio d x,
    EvUpdateNoteFields note_id audio d x ∈ two_cards_run -> not_blank audio.
Proof.
  exact (loop_writes_only_blank_notes
           (world_ok [blank_card; other_card]) (config page_full)
           [blank_card; other_card] ∅ [] _ two_cards_run two_cards_loop).
Defined.

Lemma loop_writes_each_word_once_witness :
  (length (updates two_cards_run) + size (∅ : gset pystr)
   <= size (∅ ∪ {[ ubiquitous ]} : gset pystr))%nat.
Proof.
  exact (loop_writes_each_word_once
           (world_ok [blank_card; other_card]) (config page_full)
           [blank_card; other_card] ∅ _ [] two_cards_run two_cards_loop).
Defined.

Lemma loop_processes_words_of_blank_notes_witness :
  (∅ : gset pystr) ⊆ ∅ ∪ {[ ubiquitous ]} /\
  forall w, w ∈ (∅ ∪ {[ ubiquitous ]} : gset pystr) -> w ∉ (∅ : gset pystr) ->
    exists n, n ∈ [blank_card; other_card] /\
              fields n !! py "Word" = Some w /\ audio_blank n.
Proof.
  exact (loop_processes_words_of_blank_notes
           (world_ok [blank_card; other_card]) (config page_full)
           [blank_card; other_card] ∅ _ [] two_cards_run two_cards_loop).
Defined.

Lemma upload_reads_the_downloaded_file_witness :
  exists tag uuid c pre post,
    (tag = py "cambridge" \/ tag = py "vocalware") /\
    cambridge_file = tag ++ py "-" ++ uuid ++ py ".mp3" /\
    Forall not_file_read pre /\
    blank_card_run
      = pre ++ EvFileWrite cambridge_file c
            :: EvFileRead cambridge_file :: post.
Proof.
  apply (upload_reads_the_downloaded_file
           (world_ok [blank_card]) (config page_full) blank_card ∅ []
           (Ret (∅ ∪ {[ ubiquitous ]})) blank_card_run cambridge_file).
  - vm_compute. reflexivity.
  - apply list_elem_of_lookup. exists 5%nat. vm_compute. reflexivity.
Defined.

Lemma dictionary_audio_is_preferred_witness :
  let W := world_ok [blank_card] in
  let C := config page_full in
  exists r rest,
    process_note W C blank_card ∅ [] =
    (r,
     making_cards ubiquitous
       :: EvCambridgeGet (cambridge_url en ubiquitous)
       :: EvUuid4
       :: EvDownloadGet {| connect := 3; backoff_factor := 1 # 2 |}
            (py "https://dictionary.cambridge.org"
               ++ py "/media/english/uk_pron/u/ubi/ubiqu/ubiquitous.mp3")
       :: rest) /\
    Forall not_vocalware rest.
Proof.
  intros W C.
  apply (dictionary_audio_is_preferred W C blank_card ubiquitous ∅ [] en
           (http 200 (Ret tt))
           {| attrs :=
                {[ py "src" :=
                     py "/media/english/uk_pron/u/ubi/ubiqu/ubiquitous.mp3" ]};
              tag_text := [] |}).
  - vm_compute. reflexivity.
  - exact blank_card_blank.
  - exact word_fresh.
  - vm_compute. reflexivity.
  - reflexivity.
  - simpl. lia.
  - reflexivity.
  - vm_compute. reflexivity.
Defined.

Lemma blank_note_is_looked_up_witness :
  let W := world_ok [card_without_audio] in
  let C := config page_full in
  exists r rest,
    process_note W C card_without_audio ∅ [] =
    (r, making_cards ubiquitous
          :: EvCambridgeGet (cambridge_url en ubiquitous) :: rest).
Proof.
  intros W C.
  apply (blank_note_is_looked_up W C card_without_audio ubiquitous ∅ [] en).
  - vm_compute. reflexivity.
  - apply missing_audio_is_blank. vm_compute. reflexivity.
  - exact word_fresh.
  - vm_compute. reflexivity.
Defined.

Lemma note_without_word_ends_run_witness :
  let W := world_ok [other_card; card_without_word; blank_card] in
  let C := config page_full in
  for_each ([other_card] ++ card_without_word :: [blank_card])
    (process_note W C) ∅ [] =
  (Raise KeyError, [EvEmit LogInfo (MsgAudioExists (py "serene"))]).
Proof.
  intros W C.
  apply (note_without_word_ends_run W C [other_card] card_without_word
           [blank_card] ∅ ∅ []).
  - vm_compute. reflexivity.
  - vm_compute. reflexivity.
Defined.

Lemma null_detail_result_raises_TypeError_witness :
  main world_no_detail (config page_full) (py "Test") [] =
  (Raise TypeError,
   [EvFindCards (py "deck:" ++ py "Test")] ++ [EvCardsInfo (Some [1; 2])]).
Proof.
  apply (null_detail_result_raises_TypeError world_no_detail
           (config page_full) (py "Test") [] (Some [1; 2])
           [EvFindCards (py "deck:" ++ py "Test")]
           (http 200 (reply None (Some (py "deck was not found"))))
           {| result := None; error := Some (py "deck was not found") |}).
  - vm_compute. reflexivity.
  - reflexivity.
  - reflexivity.
  - reflexivity.
Defined.

Lemma get_cards_returns_the_result_witness :
  let W := world_ok [] in
  exists response reply,
    post_findCards W [] (py "deck:" ++ py "Test") = Ret response /\
    ~ (400 <= status_code response < 600) /\
    json response = Ret reply /\
    Some [1; 2] = result reply /\
    [EvFindCards (py "deck:" ++ py "Test")]
      = [EvFindCards (py "deck:" ++ py "Test")].
Proof.
  intros W.
  apply (get_cards_returns_the_result W (py "Test") [] (Some [1; 2])
           [EvFindCards (py "deck:" ++ py "Test")]).
  vm_compute. reflexivity.
Defined.

Lemma add_word_info_to_note_rejects_wrong_types_witness :
  exists msg,
    add_word_info_to_note (world_ok []) (Scalar (VStr (py "1496198395707")))
      cambridge_file (Scalar VNone) (Scalar VNone) []
    = (Ret tt, [EvEmit Stdout msg]).
Proof.
  apply add_word_info_to_note_rejects_wrong_types.
  left. reflexivity.
Defined.

Lemma add_word_info_to_note_writes_absent_as_empty_witness :
  let d := Scalar VNone in
  let x := Scalar VNone in
  exists r rest,
    add_word_info_to_note (world_ok []) (Scalar (VInt 1)) cambridge_file
      d x [] =
    (r,
     EvUpdateNoteFields (Scalar (VInt 1))
       (py "[sound:" ++ cambridge_file ++ py "]")
       (as_str d) (join (py "<br>") (map py_str (as_list x))) :: rest) /\
    (is_None d = true -> as_str d = []) /\
    (is_None x = true \/ x = VList [] ->
     join (py "<br>") (map py_str (as_list x)) = []).
Proof.
  intros d x.
  apply add_word_info_to_note_writes_absent_as_empty.
  - reflexivity.
  - left. reflexivity.
  - left. reflexivity.
Defined.

End MoreConcrete.
